(** * flickr-to-miro: a shallow embedding of [flick.py]

    The script reads a Flickr album page by page, picks one image URL per
    photo, and creates an image, a banner and a label on a Miro board for
    each photo, grouping the three.  This file embeds the script function by
    function and proves properties of the embedding.

    Layout of the development:
    - [Py]: the fragment of Python the script uses (values, exceptions,
      truthiness, [int()], [str.isdigit], [//] and [%], int/float arithmetic);
    - the effect monad: a trace of requests, sleeps and console output,
      threaded through every call, with a server answering each request;
    - the functions of [flick.py], under their own names;
    - the properties. *)

From Stdlib Require Import ZArith NArith List Bool String Ascii Lia.
From Stdlib Require Import Floats.
Import ListNotations.

Set Implicit Arguments.
Set Warnings "-register-all".

(* ================================================================== *)
(** * The Python fragment *)
(* ================================================================== *)

Module Py.

(** A Python [str] is a sequence of Unicode code points. *)
Definition pystr := list N.

(** An ASCII literal of the source, as a [str]. *)
Definition lit (s : string) : pystr := map N_of_ascii (list_ascii_of_string s).

Definition pystr_eqb (a b : pystr) : bool :=
  if list_eq_dec N.eq_dec a b then true else false.

(** Values: what [json.loads] produces and what the script builds as
    request bodies.  A [dict] keeps its items in insertion order; the first
    binding of a key is the one [get] sees. *)
Inductive pyval : Type :=
| PNone
| PBool (b : bool)
| PInt (z : Z)
| PFloat (f : float)
| PStr (s : pystr)
| PList (l : list pyval)
| PDict (d : list (pystr * pyval)).

(** A response of the [requests] library: the status line, the body as text
    and the body as [r.json()] reads it ([None] when decoding fails). *)
Record Response : Type := mkResponse {
  status_code : Z;
  text : pystr;
  json_body : option pyval
}.

(** Exceptions.  [HTTPError] is [requests.HTTPError], the only class the
    script ever catches; [RequestException] stands for every other error of
    [requests] (connection failure, timeout, ...). *)
Inductive exn : Type :=
| HTTPError (r : Response)
| RequestException (kind : pystr)
| JSONDecodeError
| RuntimeError (msg : pystr)
| SystemExit (msg : pystr)
| ValueError
| TypeError
| AttributeError
| KeyError (k : pystr)
| ZeroDivisionError
| OverflowError.

Inductive Result (A : Type) : Type :=
| Ok (a : A)
| Raise (e : exn).
Arguments Ok {A} a.
Arguments Raise {A} e.

Definition is_HTTPError (e : exn) : bool :=
  match e with HTTPError _ => true | _ => false end.

(** What the interpreter brings along and the script does not define: the
    character properties of the Unicode database, the limit on the number
    of digits in a conversion between [int] and [str], in either direction
    ([0]: no limit, as before Python 3.11; otherwise at least 640, the
    least the interpreter lets one set; 4300 unless configured), and [str()]
    on floats, lists and dicts ([None]: the [ValueError] of a number inside
    that exceeds the limit). *)
Record Runtime : Type := mkRuntime {
  ucd_decimal : N -> option Z;   (* digit value of a decimal character (Nd) *)
  ucd_isdigit : N -> bool;       (* Numeric_Type is Digit or Decimal *)
  ucd_isspace : N -> bool;       (* whitespace, as str.strip() sees it *)
  int_max_str_digits : N;
  format_value : pyval -> option pystr  (* str(v) of a float, a list, a dict *)
}.

(** ** Truthiness, dictionaries, membership *)

Definition truthy (v : pyval) : bool :=
  match v with
  | PNone => false
  | PBool b => b
  | PInt z => negb (z =? 0)%Z
  | PFloat f => negb (PrimFloat.eqb f PrimFloat.zero)
  | PStr s => negb (Nat.eqb (List.length s) 0)
  | PList l => negb (Nat.eqb (List.length l) 0)
  | PDict d => negb (Nat.eqb (List.length d) 0)
  end.

Fixpoint dict_lookup (d : list (pystr * pyval)) (k : pystr) : option pyval :=
  match d with
  | [] => None
  | (k', v) :: d' => if pystr_eqb k' k then Some v else dict_lookup d' k
  end.

(** [d[k] = v]: replaces the value of an existing key in place, appends a new
    key at the end. *)
Fixpoint dict_set (d : list (pystr * pyval)) (k : pystr) (v : pyval)
  : list (pystr * pyval) :=
  match d with
  | [] => [(k, v)]
  | (k', v') :: d' =>
      if pystr_eqb k' k then (k', v) :: d' else (k', v') :: dict_set d' k v
  end.

(** [v.get(k, default)]: only a [dict] has the method. *)
Definition py_get (v : pyval) (k : pystr) (default : pyval) : Result pyval :=
  match v with
  | PDict d => Ok (match dict_lookup d k with Some x => x | None => default end)
  | _ => Raise AttributeError
  end.

(** [v[k]] with a string key. *)
Definition py_getitem (v : pyval) (k : pystr) : Result pyval :=
  match v with
  | PDict d => match dict_lookup d k with Some x => Ok x | None => Raise (KeyError k) end
  | _ => Raise TypeError
  end.

(** [s == v] for a string [s]: only an equal string is equal to it. *)
Definition eq_str (v : pyval) (s : pystr) : bool :=
  match v with PStr t => pystr_eqb t s | _ => false end.

(** [needle in hay] for strings: [needle] occurs as a substring. *)
Fixpoint is_prefix (p s : pystr) : bool :=
  match p, s with
  | [], _ => true
  | _ :: _, [] => false
  | a :: p', b :: s' => N.eqb a b && is_prefix p' s'
  end.

Fixpoint is_substring (p s : pystr) : bool :=
  is_prefix p s || match s with [] => false | _ :: s' => is_substring p s' end.

(** [k in v] with a string [k]: a key of a dict, an element of a list, a
    substring of a string; anything else is not a container. *)
Definition py_contains (v : pyval) (k : pystr) : Result bool :=
  match v with
  | PDict d => Ok (match dict_lookup d k with Some _ => true | None => false end)
  | PList l => Ok (existsb (fun x => eq_str x k) l)
  | PStr s => Ok (is_substring k s)
  | _ => Raise TypeError
  end.

(** [for x in v]: the elements in order; a dict gives its keys, a string its
    characters. *)
Definition py_iter (v : pyval) : Result (list pyval) :=
  match v with
  | PList l => Ok l
  | PDict d => Ok (map (fun kv => PStr (fst kv)) d)
  | PStr s => Ok (map (fun c => PStr [c]) s)
  | _ => Raise TypeError
  end.

(** ** Strings *)

Section Strings.
Variable rt : Runtime.

(** [s.isdigit()]: at least one character, and every character a digit. *)
Definition isdigit (s : pystr) : bool :=
  negb (Nat.eqb (List.length s) 0) && forallb (ucd_isdigit rt) s.

Fixpoint lstrip (s : pystr) : pystr :=
  match s with
  | c :: s' => if ucd_isspace rt c then lstrip s' else s
  | [] => []
  end.

(** [s.strip()]: whitespace removed at both ends. *)
Definition strip (s : pystr) : pystr := rev (lstrip (rev (lstrip s))).

(** *** [int(s)] for a string, base ten

    The interpreter first maps every non-ASCII whitespace character to a
    space and every non-ASCII decimal character to its ASCII digit, then
    reads: blanks, an optional sign, digits with single underscores between
    them, blanks.  The blanks of this second step are the six ASCII ones. *)

Definition ascii_blank (c : N) : bool :=
  ((9 <=? c) && (c <=? 13) || (c =? 32))%N.

Definition int_blank (c : N) : bool :=
  if (c <? 127)%N then ascii_blank c else ucd_isspace rt c.

Definition int_digit (c : N) : option Z :=
  if (c <? 127)%N
  then (if (48 <=? c) && (c <=? 57) then Some (Z.of_N c - 48)%Z else None)%N
  else ucd_decimal rt c.

Fixpoint drop_blanks (s : pystr) : pystr :=
  match s with
  | c :: s' => if int_blank c then drop_blanks s' else s
  | [] => []
  end.

Inductive digit_state : Type := AtStart | AfterDigit | AfterUnderscore.

(** The digits proper: the value read so far and the number of digits. *)
Fixpoint read_digits (st : digit_state) (acc : Z) (n : N) (s : pystr)
  : option (Z * N) :=
  match s with
  | [] => match st with AfterDigit => Some (acc, n) | _ => None end
  | c :: s' =>
      if (c =? 95)%N
      then match st with
           | AfterDigit => read_digits AfterUnderscore acc n s'
           | _ => None
           end
      else match int_digit c with
           | Some d => read_digits AfterDigit (10 * acc + d)%Z (n + 1)%N s'
           | None => None
           end
  end.

Definition int_of_str (s : pystr) : Result Z :=
  let body := rev (drop_blanks (rev (drop_blanks s))) in
  let '(neg, digits) :=
    match body with
    | 43%N :: r => (false, r)
    | 45%N :: r => (true, r)
    | _ => (false, body)
    end in
  match read_digits AtStart 0%Z 0%N digits with
  | Some (z, n) =>
      if negb (int_max_str_digits rt =? 0)%N && (int_max_str_digits rt <? n)%N
      then Raise ValueError
      else Ok (if neg then (- z)%Z else z)
  | None => Raise ValueError
  end.
End Strings.

(** The decimal digits of an integer, with a minus sign when negative:
    what [str(z)] returns when it returns. *)
Fixpoint pos_digits (fuel : nat) (z : Z) (acc : pystr) : pystr :=
  match fuel with
  | O => acc
  | S fuel' =>
      let acc' := (Z.to_N (48 + z mod 10))%Z :: acc in
      if (z <? 10)%Z then acc' else pos_digits fuel' (z / 10)%Z acc'
  end.

Definition str_of_int (z : Z) : pystr :=
  if (z <? 0)%Z
  then 45%N :: pos_digits (S (Z.to_nat (Z.log2 (- z)))) (- z)%Z []
  else pos_digits (S (Z.to_nat (Z.log2 z))) z [].

(** [str(z)], and [z] inside an f-string: [ValueError] when the number has
    more digits, the sign not counted, than the limit admits. *)
Definition int_digits (z : Z) : N := N.of_nat (List.length (str_of_int (Z.abs z))).

Definition int_to_str (rt : Runtime) (z : Z) : Result pystr :=
  if negb (int_max_str_digits rt =? 0)%N && (int_max_str_digits rt <? int_digits z)%N
  then Raise ValueError
  else Ok (str_of_int z).

(** The largest index (a 64-bit build). *)
Definition PY_SSIZE_T_MAX : Z := (2 ^ 63 - 1)%Z.

(** [c * n] for a string [c].  The count has to fit an index, whatever its
    sign; a count below one gives the empty string; the length of the result
    has to fit an index as well.  Memory is taken as unbounded: a result
    that fits is built. *)
Definition str_repeat (c : pystr) (n : Z) : Result pystr :=
  if (n <? - PY_SSIZE_T_MAX - 1)%Z || (PY_SSIZE_T_MAX <? n)%Z then Raise OverflowError
  else if (n <? 1)%Z then Ok []
  else if (PY_SSIZE_T_MAX / n <? Z.of_nat (List.length c))%Z then Raise OverflowError
  else Ok (List.concat (repeat c (Z.to_nat n))).

(** ** Numbers *)

(** [float(z)] and the true division [a / b] of two integers round the
    exact value to the nearest double, ties to even, and raise
    [OverflowError] when it is out of range.  The quotient is carried with
    enough extra bits, the last one sticky, for the rounding to see it
    exactly. *)
Definition round_to_float (m e : Z) : Result float :=
  match binary_normalize prec emax m e false with
  | S754_infinity _ => Raise OverflowError
  | sf => Ok (SF2Prim sf)
  end.

Definition float_of_int (z : Z) : Result float := round_to_float z 0.

Definition int_truediv (a b : Z) : Result float :=
  if (b =? 0)%Z then Raise ZeroDivisionError
  else
    let neg := xorb (a <? 0)%Z (b <? 0)%Z in
    let a' := Z.abs a in
    let b' := Z.abs b in
    if (a' =? 0)%Z then Ok (if neg then PrimFloat.opp PrimFloat.zero else PrimFloat.zero)
    else
      let k := Z.max 0 (56 + Z.log2 b' - Z.log2 a')%Z in
      let q := ((a' * 2 ^ k) / b')%Z in
      let r := ((a' * 2 ^ k) mod b')%Z in
      let m := (if (r =? 0)%Z then 2 * q else 2 * q + 1)%Z in
      round_to_float (if neg then - m else m)%Z (- k - 1)%Z.

(** [int(f)] for a float: towards zero. *)
Definition int_of_float (f : float) : Result Z :=
  match Prim2SF f with
  | S754_zero _ => Ok 0%Z
  | S754_infinity _ => Raise OverflowError
  | S754_nan => Raise ValueError
  | S754_finite s m e =>
      let a := (if (0 <=? e)%Z then Z.pos m * 2 ^ e else Z.pos m / 2 ^ (- e))%Z in
      Ok (if s then (- a)%Z else a)
  end.

(** [int(v)]. *)
Definition py_int (rt : Runtime) (v : pyval) : Result Z :=
  match v with
  | PInt z => Ok z
  | PBool b => Ok (if b then 1 else 0)%Z
  | PFloat f => int_of_float f
  | PStr s => int_of_str rt s
  | _ => Raise TypeError
  end.

(** [a // b] and [a % b] on integers: the quotient rounded down, the
    remainder with the sign of the divisor. *)
Definition floordiv (a b : Z) : Result Z :=
  if (b =? 0)%Z then Raise ZeroDivisionError else Ok (a / b)%Z.

Definition pymod (a b : Z) : Result Z :=
  if (b =? 0)%Z then Raise ZeroDivisionError else Ok (a mod b)%Z.

(** ** Formatting and encoding *)

(** A value inside an f-string: a string as it is, an integer as [str()]
    gives it, [None] and the booleans by their names. *)
Definition fstr (rt : Runtime) (v : pyval) : Result pystr :=
  match v with
  | PStr s => Ok s
  | PInt z => int_to_str rt z
  | PNone => Ok (lit "None")
  | PBool true => Ok (lit "True")
  | PBool false => Ok (lit "False")
  | _ => match format_value rt v with Some s => Ok s | None => Raise ValueError end
  end.

(** What [json.dumps(v, allow_nan=False)] accepts, the encoder [requests]
    runs on the [json=] argument of a request: every float finite (neither
    nan nor an infinity), every integer within the limit of [str()]. *)
Fixpoint json_ok (rt : Runtime) (v : pyval) : bool :=
  match v with
  | PNone | PBool _ | PStr _ => true
  | PInt z => match int_to_str rt z with Ok _ => true | Raise _ => false end
  | PFloat f => negb (PrimFloat.is_nan f) && negb (PrimFloat.is_infinity f)
  | PList l => forallb (json_ok rt) l
  | PDict d => forallb (fun kv => json_ok rt (snd kv)) d
  end.

End Py.

Import Py.

(* ================================================================== *)
(** * Effects: requests, sleeps, console *)
(* ================================================================== *)

(** A request as the script issues it: [requests.get(url, params=, timeout=)]
    and [session.post(url, json=, timeout=)], the latter with the headers the
    session carries. *)
Inductive Request : Type :=
| Get (url : pystr) (params : pyval) (timeout : Z)
| Post (url : pystr) (headers : list (pystr * pystr)) (json : pyval) (timeout : Z).

(** A piece of console output: literal text, a formatted value, a formatted
    exception. *)
Inductive Fragment : Type :=
| Lit (s : pystr)
| Val (v : pyval)
| Exn (e : exn).

Inductive Event : Type :=
| EvRequest (rq : Request)          (* a request went out *)
| EvSleep (seconds : pyval)         (* time.sleep *)
| EvPrint (args : list Fragment)    (* print(...) *)
| EvWrite (line : list Fragment)    (* sys.stdout.write(...) *)
| EvEnter (fn : pystr) (args : list pyval).
    (* ghost: entry into a board-client function; no effect of the script *)

(** The trace, latest event first. *)
Definition World := list Event.

(** What comes back: a response, or no response at all. *)
Inductive Reply : Type :=
| Answer (r : Response)
| NoAnswer (kind : pystr).

(** The two remote services: the reply to a request may depend on everything
    that happened before it. *)
Definition Server := World -> Request -> Reply.

(** Computations: a result or an exception, and the trace so far. *)
Definition M (A : Type) : Type := World -> Result A * World.

Definition ret {A} (a : A) : M A := fun w => (Ok a, w).
Definition raise {A} (e : exn) : M A := fun w => (Raise e, w).
Definition bind {A B} (c : M A) (k : A -> M B) : M B :=
  fun w => match c w with
           | (Ok a, w') => k a w'
           | (Raise e, w') => (Raise e, w')
           end.
Definition lift {A} (r : Result A) : M A := fun w => (r, w).
Definition emit (e : Event) : M unit := fun w => (Ok tt, e :: w).

(** [try: c  except requests.HTTPError as e: h e]. *)
Definition try_except_HTTPError {A} (c : M A) (h : exn -> M A) : M A :=
  fun w => match c w with
           | (Raise (HTTPError r), w') => h (HTTPError r) w'
           | other => other
           end.

Declare Scope py_scope.
Delimit Scope py_scope with py.
Notation "x <- c ;; k" := (bind c (fun x => k))
  (at level 100, c at next level, right associativity) : py_scope.
Notation "c ;; k" := (bind c (fun _ => k))
  (at level 100, right associativity) : py_scope.
Open Scope py_scope.

(** The same for the pure part of a function body. *)
Definition rbind {A B} (r : Result A) (k : A -> Result B) : Result B :=
  match r with Ok a => k a | Raise e => Raise e end.
Notation "x <~ r ;; k" := (rbind r (fun x => k))
  (at level 100, r at next level, right associativity) : py_scope.

(** ** Configuration: the module-level constants of [flick.py] *)

Record Config : Type := mkConfig {
  FLICKR_API_KEY : option pystr;
  FLICKR_USER_ID : option pystr;
  FLICKR_PHOTOSETID : option pystr;
  MIRO_TOKEN : option pystr;
  MIRO_BOARD_ID : option pystr;
  IMAGES_PER_ROW : Z;
  CELL_W : float;
  CELL_H : float;
  START_X : float;
  START_Y : float;
  OVERLAY_HEIGHT : float;
  OVERLAY_MARGIN : float;
  OVERLAY_COLOR : pystr;
  TEXT_SIZE : Z;
  TEXT_PADDING_X : float;
  PROGRESS_WIDTH : Z
}.

(** [os.getenv] gives a string or [None]. *)
Definition env (v : option pystr) : pyval :=
  match v with Some s => PStr s | None => PNone end.

Definition FLICKR_ENDPOINT : pystr := lit "https://www.flickr.com/services/rest/".
Definition MIRO_BASE : pystr := lit "https://api.miro.com/v2".

(** [a or b]. *)
Definition py_or (a b : pyval) : pyval := if truthy a then a else b.

(** [r.raise_for_status()] raises for the 4xx and 5xx codes. *)
Definition is_error_status (r : Response) : bool :=
  ((400 <=? status_code r) && (status_code r <? 600))%Z.

Definition raise_for_status (r : Response) : M unit :=
  if is_error_status r then raise (HTTPError r) else ret tt.

(** [r.json()]. *)
Definition r_json (r : Response) : M pyval :=
  match json_body r with
  | Some v => ret v
  | None => raise JSONDecodeError
  end.

Definition sleep (seconds : pyval) : M unit := emit (EvSleep seconds).
Definition print (args : list Fragment) : M unit := emit (EvPrint args).

(* ================================================================== *)
(** * The script *)
(* ================================================================== *)

Section Script.
Variable rt : Runtime.
Variable server : Server.
Variable cfg : Config.

(** ** The two ways a request leaves the process *)

(** A prepared request goes out and the service replies, or fails to. *)
Definition send (rq : Request) : M Response :=
  fun w => match server w rq with
           | Answer r => (Ok r, EvRequest rq :: w)
           | NoAnswer kind => (Raise (RequestException kind), EvRequest rq :: w)
           end.

(** [requests.get(url, params=, timeout=)]: no body to encode. *)
Definition requests_get (url : pystr) (params : pyval) (timeout : Z) : M Response :=
  send (Get url params timeout).

(** [session]: created once, with the [Authorization] header when a token is
    configured (lines 35-37; the token is a string there, and stands for
    itself in the f-string). *)
Definition session_headers : list (pystr * pystr) :=
  match MIRO_TOKEN cfg with
  | Some token =>
      if truthy (PStr token)
      then [(lit "Authorization", lit "Bearer " ++ token)]
      else []
  | None => []
  end.

(** [session.post(url, json=, timeout=)]: the body is encoded while the
    request is prepared; a body the encoder refuses raises
    [requests.InvalidJSONError], a [RequestException] that is no
    [HTTPError], and nothing is sent. *)
Definition session_post (url : pystr) (payload : pyval) (timeout : Z) : M Response :=
  if json_ok rt payload
  then send (Post url session_headers payload timeout)
  else raise (RequestException (lit "InvalidJSONError")).

(** ** Flickr helpers *)

Definition flickr_params (photoset_id user_id api_key : pyval) (page : Z) : pyval :=
  PDict [ (lit "method", PStr (lit "flickr.photosets.getPhotos"));
          (lit "api_key", api_key);
          (lit "user_id", user_id);
          (lit "photoset_id", photoset_id);
          (lit "extras", PStr (lit "media,path_alias,original_format,url_o,url_k,url_h,url_l,url_c,url_z,url_m"));
          (lit "per_page", PInt 500);
          (lit "page", PInt page);
          (lit "format", PStr (lit "json"));
          (lit "nojsoncallback", PInt 1) ].

(** Lines 57-59: the request for one page and its decoded body. *)
Definition fetch_page (photoset_id user_id api_key : pyval) (page : Z) : M pyval :=
  r <- requests_get FLICKR_ENDPOINT (flickr_params photoset_id user_id api_key page) 30 ;;
  raise_for_status r ;;
  r_json r.

(** Line 61: [not photoset or "photo" not in photoset]. *)
Definition lacks_container (photoset : pyval) : Result bool :=
  if negb (truthy photoset) then Ok true
  else (b <~ py_contains photoset (lit "photo") ;; Ok (negb b)).

(** How a generator ends: it is exhausted, or an exception leaves it. *)
Inductive GenEnd : Type :=
| StopIteration
| GenRaise (e : exn).

(** What one turn of the [while True] loop does with the body of a page:
    the records it yields, and whether the loop goes on. *)
Inductive PageStep : Type :=
| Break (yielded : list pyval)
| NextPage (yielded : list pyval)
| Fault (yielded : list pyval) (e : exn).

Definition page_step (data : pyval) (page : Z) : PageStep :=
  match py_get data (lit "photoset") PNone with
  | Raise e => Fault [] e
  | Ok photoset =>
      match lacks_container photoset with
      | Raise e => Fault [] e
      | Ok true => Break []
      | Ok false =>
          match (ph <~ py_getitem photoset (lit "photo") ;; py_iter ph) with
          | Raise e => Fault [] e
          | Ok ps =>
              match (pg <~ py_get photoset (lit "pages") (PInt 1) ;; py_int rt pg) with
              | Raise e => Fault ps e
              | Ok pages => if (page >=? pages)%Z then Break ps else NextPage ps
              end
          end
      end
  end.

(** The generator, run to its end: every record it yields, in order, how it
    ends and the trace.  [fuel] bounds the number of pages requested; [None]
    when it does not suffice. *)
Fixpoint photos_from (fuel : nat) (photoset_id user_id api_key : pyval) (page : Z)
         (w : World) : option (list pyval * GenEnd * World) :=
  match fuel with
  | O => None
  | S fuel' =>
      match fetch_page photoset_id user_id api_key page w with
      | (Raise e, w1) => Some ([], GenRaise e, w1)
      | (Ok data, w1) =>
          match page_step data page with
          | Fault ps e => Some (ps, GenRaise e, w1)
          | Break ps => Some (ps, StopIteration, w1)
          | NextPage ps =>
              match photos_from fuel' photoset_id user_id api_key (page + 1) w1 with
              | Some (rest, fin, w2) => Some (ps ++ rest, fin, w2)
              | None => None
              end
          end
      end
  end.

Definition flickr_photos_in_photoset (fuel : nat) (photoset_id user_id api_key : pyval)
  : World -> option (list pyval * GenEnd * World) :=
  photos_from fuel photoset_id user_id api_key 1.

(** [list(flickr_photos_in_photoset(...))]. *)
Definition list_of_photos (fuel : nat) (photoset_id user_id api_key : pyval)
           (w : World) : option (Result (list pyval) * World) :=
  match flickr_photos_in_photoset fuel photoset_id user_id api_key w with
  | Some (ps, StopIteration, w') => Some (Ok ps, w')
  | Some (_, GenRaise e, w') => Some (Raise e, w')
  | None => None
  end.

Definition url_keys : list pystr :=
  [lit "url_c"; lit "url_l"; lit "url_z"; lit "url_m"; lit "url_h"; lit "url_k"; lit "url_o"].

(** The [for key in (...)] loop of [pick_best_image_url]. *)
Fixpoint first_present (keys : list pystr) (p : pyval) : Result pyval :=
  match keys with
  | [] => Ok PNone
  | key :: keys' =>
      present <~ py_contains p key ;;
      if present then py_getitem p key else first_present keys' p
  end.

Definition pick_best_image_url (p : pyval) : Result pyval :=
  media <~ py_get p (lit "media") PNone ;;
  if eq_str media (lit "video") then Ok PNone
  else first_present url_keys p.

Definition build_flickr_page_url (p fallback_user_id : pyval) : Result pystr :=
  alias <~ py_get p (lit "path_alias") PNone ;;
  let user := py_or alias fallback_user_id in
  user_ <~ fstr rt user ;;
  id <~ py_getitem p (lit "id") ;;
  id_ <~ fstr rt id ;;
  Ok (lit "https://www.flickr.com/photos/" ++ user_ ++ lit "/" ++ id_).

(** ** Miro helpers *)

(** One turn of [for attempt in range(tries)], and the turns left. *)
Fixpoint post_attempts (left : nat) (attempt : Z) (url : pystr) (payload : pyval)
         (tries : Z) : M pyval :=
  match left with
  | O => raise (RuntimeError (lit "Failed after retries"))
  | S left' =>
      r <- session_post url payload 60 ;;
      if ((status_code r =? 429) && (attempt + 1 <? tries))%Z
      then
        sleep (PInt 2) ;;
        post_attempts left' (attempt + 1) url payload tries
      else
        try_except_HTTPError (raise_for_status r)
          (fun e =>
             print [Lit (lit "   Miro error body:"); Val (PStr (firstn 400 (text r)))] ;;
             raise e) ;;
        r_json r
  end.

Definition _miro_post (url : pystr) (payload : pyval) (tries : Z) : M pyval :=
  post_attempts (Z.to_nat tries) 0 url payload tries.

(** The default of the [tries] parameter. *)
Definition default_tries : Z := 2.

(** [f"{MIRO_BASE}/boards/{board_id}/what"]. *)
Definition boards_url (board_id : pyval) (what : string) : Result pystr :=
  board <~ fstr rt board_id ;;
  Ok (MIRO_BASE ++ lit "/boards/" ++ board ++ lit "/" ++ lit what).

Definition position (x y : float) : pyval :=
  PDict [(lit "x", PFloat x); (lit "y", PFloat y)].

Definition miro_create_image (board_id image_url : pyval) (x y : float)
           (width height : pyval) : M pyval :=
  emit (EvEnter (lit "miro_create_image") [board_id; image_url]) ;;
  endpoint <- lift (boards_url board_id "images") ;;
  let payload := [ (lit "data", PDict [(lit "url", image_url)]);
                   (lit "position", position x y) ] in
  let payload :=
    if truthy width || truthy height then
      let geometry := [] in
      let geometry :=
        match width with PNone => geometry | _ => dict_set geometry (lit "width") width end in
      let geometry :=
        match height with PNone => geometry | _ => dict_set geometry (lit "height") height end in
      dict_set payload (lit "geometry") (PDict geometry)
    else payload in
  _miro_post endpoint (PDict payload) default_tries.

Definition miro_create_shape_rect (board_id : pyval) (x y width height : float)
           (fill : pystr) : M pyval :=
  emit (EvEnter (lit "miro_create_shape_rect") [board_id]) ;;
  endpoint <- lift (boards_url board_id "shapes") ;;
  let payload :=
    PDict [ (lit "data", PDict [(lit "shape", PStr (lit "rectangle"))]);
            (lit "position", position x y);
            (lit "geometry", PDict [(lit "width", PFloat width); (lit "height", PFloat height)]);
            (lit "style", PDict [(lit "fillColor", PStr fill)]) ] in
  _miro_post endpoint payload default_tries.

Definition miro_create_text (board_id : pyval) (content : pystr) (x y width : float)
           (font_size : Z) (align : pystr) : M pyval :=
  emit (EvEnter (lit "miro_create_text") [board_id; PStr content]) ;;
  endpoint <- lift (boards_url board_id "texts") ;;
  let payload :=
    PDict [ (lit "data", PDict [(lit "content", PStr content)]);
            (lit "position", position x y);
            (lit "geometry", PDict [(lit "width", PFloat width)]);
            (lit "style", PDict [(lit "textAlign", PStr align);
                                 (lit "fontSize", PInt font_size)]) ] in
  _miro_post endpoint payload default_tries.

(** One element of [_coerce_ids_to_numbers]. *)
Definition coerce_id (id : pyval) : Result pyval :=
  match id with
  | PStr s => if isdigit rt s then (z <~ py_int rt (PStr s) ;; Ok (PInt z)) else Ok id
  | _ => Ok id
  end.

Fixpoint _coerce_ids_to_numbers (ids_list : list pyval) : Result (list pyval) :=
  match ids_list with
  | [] => Ok []
  | id :: rest =>
      x <~ coerce_id id ;;
      out <~ _coerce_ids_to_numbers rest ;;
      Ok (x :: out)
  end.

(** The three bodies [miro_group_items] tries, in the order of the list
    [payloads]. *)
Definition group_payloads (ids_numbers item_ids : list pyval) : list pyval :=
  [ PDict [(lit "data", PDict [(lit "items", PList ids_numbers)])];
    PDict [(lit "data", PDict [(lit "itemIds", PList item_ids)])];
    PDict [(lit "itemIds", PList item_ids)] ].

(** [raise last_err]: raising [None] is a [TypeError]. *)
Definition raise_last {A} (last_err : option exn) : M A :=
  match last_err with
  | Some e => raise e
  | None => raise TypeError
  end.

(** The [for p in payloads] loop. *)
Fixpoint try_payloads (endpoint : pystr) (payloads : list pyval)
         (last_err : option exn) : M pyval :=
  match payloads with
  | [] => raise_last last_err
  | p :: rest =>
      fun w =>
        match _miro_post endpoint p default_tries w with
        | (Raise (HTTPError r), w1) =>
            (print [Lit (lit "   Miro error body:"); Val (PStr (firstn 400 (text r)))] ;;
             try_payloads endpoint rest (Some (HTTPError r))) w1
        | other => other
        end
  end.

Definition miro_group_items (board_id : pyval) (item_ids : list pyval) : M pyval :=
  emit (EvEnter (lit "miro_group_items") [board_id; PList item_ids]) ;;
  endpoint <- lift (boards_url board_id "groups") ;;
  ids_numbers <- lift (_coerce_ids_to_numbers item_ids) ;;
  try_payloads endpoint (group_payloads ids_numbers item_ids) None.

(** ** Progress helpers *)

(** [progress_bar(i, n, width)], on integers as [main] calls it.  The
    pieces of the returned string are built from left to right. *)
Definition progress_bar (i n width : Z) : Result pystr :=
  filled <~ (if (n =? 0)%Z
             then Ok (0 * width)%Z                       (* int(0 * width) *)
             else (ratio <~ int_truediv i n ;;
                   wf <~ float_of_int width ;;
                   int_of_float (PrimFloat.mul ratio wf))) ;;
  hashes <~ str_repeat (lit "#") filled ;;
  dashes <~ str_repeat (lit "-") (width - filled) ;;
  i_ <~ int_to_str rt i ;;
  n_ <~ int_to_str rt n ;;
  Ok (lit "[" ++ hashes ++ dashes ++ lit "] " ++ i_ ++ lit "/" ++ n_).

Definition print_progress (i n : Z) (suffix : list Fragment) : M unit :=
  bar <- lift (progress_bar i n (PROGRESS_WIDTH cfg)) ;;
  let end_ := if (i =? n)%Z then [10%N] else [13%N] in
  emit (EvWrite ([Lit bar; Lit (lit " ")] ++ suffix ++ [Lit end_])).

(** ** Main *)

Definition required_env : list (string * option pystr) :=
  [ ("FLICKR_API_KEY"%string, FLICKR_API_KEY cfg);
    ("FLICKR_USER_ID"%string, FLICKR_USER_ID cfg);
    ("FLICKR_PHOTOSET_ID"%string, FLICKR_PHOTOSETID cfg);
    ("MIRO_TOKEN"%string, MIRO_TOKEN cfg);
    ("MIRO_BOARD_ID"%string, MIRO_BOARD_ID cfg) ].

(** [[k for k, v in {...}.items() if not v]]. *)
Definition missing : list pystr :=
  map (fun kv => lit (fst kv))
      (filter (fun kv => negb (truthy (env (snd kv)))) required_env).

(** [sep.join(parts)]. *)
Fixpoint join (sep : pystr) (parts : list pystr) : pystr :=
  match parts with
  | [] => []
  | [x] => x
  | x :: rest => x ++ sep ++ join sep rest
  end.

(** Lines 239-242: the centre of the tile of the [idx]-th photo. *)
Definition tile_col (idx : Z) : Result Z := pymod (idx - 1) (IMAGES_PER_ROW cfg).
Definition tile_row (idx : Z) : Result Z := floordiv (idx - 1) (IMAGES_PER_ROW cfg).

Definition tile_center (idx : Z) : Result (float * float) :=
  col <~ tile_col idx ;;
  row <~ tile_row idx ;;
  colf <~ float_of_int col ;;
  let x_center := PrimFloat.add (START_X cfg) (PrimFloat.mul colf (CELL_W cfg)) in
  rowf <~ float_of_int row ;;
  let y_center := PrimFloat.add (START_Y cfg) (PrimFloat.mul rowf (CELL_H cfg)) in
  Ok (x_center, y_center).

(** Integer literals next to floats. *)
Definition f2 : float := 2%float.
Definition f4 : float := 4%float.
Definition f24 : float := 24%float.

(** [created_ids.append(x)] guarded by [x is not None]. *)
Definition append_id (created_ids : list pyval) (x : pyval) : list pyval :=
  match x with PNone => created_ids | _ => created_ids ++ [x] end.

(** [v.get("id")] on a decoded response. *)
Definition get_id (v : pyval) : M pyval := lift (py_get v (lit "id") PNone).

(** Step 1, lines 247-260: the image.  [None] is the [continue] of the
    handler. *)
Definition place_image (idx total : Z) (pid img_url : pyval) (x_center y_center : float)
  : M (option (list pyval)) :=
  try_except_HTTPError
    (img <- miro_create_image (env (MIRO_BOARD_ID cfg)) img_url x_center
              (PrimFloat.sub
                 (PrimFloat.sub y_center (PrimFloat.div (OVERLAY_HEIGHT cfg) f2))
                 (PrimFloat.div (OVERLAY_MARGIN cfg) f2))
              (PFloat (PrimFloat.sub (CELL_W cfg) f24)) PNone ;;
     iid <- get_id img ;;
     ret (Some (append_id [] iid)))
    (fun e =>
       print_progress idx total [Lit (lit "ERR "); Val pid; Lit (lit " (image) -> "); Exn e] ;;
       ret None).

(** Step 2, lines 263-277: the banner. *)
Definition place_overlay (idx total : Z) (pid : pyval) (x_center overlay_y : float)
           (created_ids : list pyval) : M (list pyval) :=
  try_except_HTTPError
    (rect <- miro_create_shape_rect (env (MIRO_BOARD_ID cfg)) x_center overlay_y
               (PrimFloat.sub (CELL_W cfg) f24) (OVERLAY_HEIGHT cfg) (OVERLAY_COLOR cfg) ;;
     rid <- get_id rect ;;
     ret (append_id created_ids rid))
    (fun e =>
       print_progress idx total [Lit (lit "ERR "); Val pid; Lit (lit " (overlay) -> "); Exn e] ;;
       ret created_ids).

(** Step 3, lines 280-296: the label. *)
Definition place_text (idx total : Z) (pid p : pyval) (title : pystr)
           (x_center overlay_y : float) (created_ids : list pyval) : M (list pyval) :=
  flickr_page <- lift (build_flickr_page_url p (env (FLICKR_USER_ID cfg))) ;;
  let label_text :=
    if truthy (PStr title) then title ++ lit " " ++ [8212%N] ++ lit " " ++ flickr_page
    else flickr_page in
  try_except_HTTPError
    (text <- miro_create_text (env (MIRO_BOARD_ID cfg)) label_text x_center overlay_y
               (PrimFloat.sub (PrimFloat.sub (CELL_W cfg) f24)
                              (PrimFloat.mul f2 (TEXT_PADDING_X cfg)))
               (TEXT_SIZE cfg) (lit "center") ;;
     tid <- get_id text ;;
     ret (append_id created_ids tid))
    (fun e =>
       print_progress idx total [Lit (lit "ERR "); Val pid; Lit (lit " (text) -> "); Exn e] ;;
       ret created_ids).

(** Step 4, lines 299-304: the group. *)
Definition group_tile (idx total : Z) (pid : pyval) (created_ids : list pyval) : M unit :=
  let group_ids := filter (fun i => match i with PNone => false | _ => true end) created_ids in
  if (Z.of_nat (List.length group_ids) >=? 2)%Z
  then
    try_except_HTTPError
      (miro_group_items (env (MIRO_BOARD_ID cfg)) group_ids ;; ret tt)
      (fun e =>
         print_progress idx total [Lit (lit "warn "); Val pid; Lit (lit " (group) -> "); Exn e])
  else ret tt.

(** [0.12], the double nearest to it. *)
Definition pacing : float := 0x1.eb851eb851eb8p-4%float.

(** Lines 230-296 of the loop body: selection and the three creation
    steps.  [None] is a [continue] (no usable URL, or the image failed);
    otherwise the identifiers collected in [created_ids]. *)
Definition place_tile (idx total : Z) (p : pyval) : M (option (pyval * list pyval)) :=
  pid <- lift (py_get p (lit "id") PNone) ;;
  title <- lift (t <~ py_get p (lit "title") PNone ;;
                 match py_or t (PStr []) with
                 | PStr s => Ok (strip rt s)
                 | _ => Raise AttributeError
                 end) ;;
  img_url <- lift (pick_best_image_url p) ;;
  if negb (truthy img_url)
  then
    print_progress idx total
      [Lit (lit "skip "); Val pid; Lit (lit " (no usable image URL or video)")] ;;
    ret None
  else
    center <- lift (tile_center idx) ;;
    let '(x_center, y_center) := center in
    placed <- place_image idx total pid img_url x_center y_center ;;
    match placed with
    | None => ret None
    | Some created_ids =>
        let overlay_y :=
          PrimFloat.sub
            (PrimFloat.sub
               (PrimFloat.add y_center (PrimFloat.div (CELL_H cfg) f2))
               (PrimFloat.div (OVERLAY_HEIGHT cfg) f2))
            f4 in
        created_ids <- place_overlay idx total pid x_center overlay_y created_ids ;;
        created_ids <- place_text idx total pid p title x_center overlay_y created_ids ;;
        ret (Some (pid, created_ids))
    end.

(** The body of the [for idx, p in enumerate(photos, start=1)] loop.  The
    result tells whether [done] was incremented. *)
Definition process_photo (idx total : Z) (p : pyval) : M bool :=
  tile <- place_tile idx total p ;;
  match tile with
  | None => ret false
  | Some (pid, created_ids) =>
      group_tile idx total pid created_ids ;;
      print_progress idx total [Lit (lit "ok "); Val pid] ;;
      sleep (PFloat pacing) ;;
      ret true
  end.

(** The [for] loop: [done] counts the tiles placed. *)
Fixpoint photo_loop (idx total : Z) (photos : list pyval) (done : Z) : M Z :=
  match photos with
  | [] => ret done
  | p :: rest =>
      placed <- process_photo idx total p ;;
      photo_loop (idx + 1) total rest (if placed then done + 1 else done)%Z
  end.

(** [main()].  [fuel] bounds the number of album pages read; [None] when it
    does not suffice. *)
Definition main (fuel : nat) (w : World) : option (Result unit * World) :=
  if negb (Nat.eqb (List.length missing) 0)
  then Some (Raise (SystemExit (lit "Missing required env vars: " ++ join (lit ", ") missing)), w)
  else
    match list_of_photos fuel (env (FLICKR_PHOTOSETID cfg)) (env (FLICKR_USER_ID cfg))
                         (env (FLICKR_API_KEY cfg)) w with
    | None => None
    | Some (Raise e, w1) => Some (Raise e, w1)
    | Some (Ok photos, w1) =>
        let total := Z.of_nat (List.length photos) in
        if (total =? 0)%Z
        then Some ((print [Lit (lit "No photos found (album may be private or IDs incorrect).")]) w1)
        else
          Some ((print [Lit (lit "Found "); Val (PInt total);
                        Lit (lit " photos. Uploading to Miro board ");
                        Val (env (MIRO_BOARD_ID cfg)); Lit [8230%N]] ;;
                 done <- photo_loop 1 total photos 0 ;;
                 print [Lit (lit "Done. Placed "); Val (PInt done); Lit (lit "/");
                        Val (PInt total); Lit (lit " grouped tiles.")]) w1)
    end.

End Script.

(* ================================================================== *)
(** * Concrete runtimes, configurations and servers *)
(* ================================================================== *)

(** CPython's tables on the Basic Latin and Latin-1 Supplement blocks
    (U+0000 to U+00FF), where they are exact: the decimal characters are
    [0]-[9]; the digits are these and the superscripts U+00B2, U+00B3 and
    U+00B9; whitespace is U+0009-U+000D, U+001C-U+0020, U+0085 and U+00A0.
    Above U+00FF the tables are left empty, so this runtime is meant for
    strings within the two blocks.  The limit on digits is the default,
    4300.  [str()] of a float, a list or a dict is not spelled out: a
    placeholder stands for it, and no example below formats one. *)
Definition cpython_latin1 : Runtime :=
  mkRuntime
    (fun c => if ((48 <=? c) && (c <=? 57))%N then Some (Z.of_N c - 48)%Z else None)
    (fun c => ((48 <=? c) && (c <=? 57) || (c =? 178) || (c =? 179) || (c =? 185))%N)
    (fun c => ((9 <=? c) && (c <=? 13) || (28 <=? c) && (c <=? 32)
               || (c =? 133) || (c =? 160))%N)
    4300
    (fun _ => Some (lit "?")).

(** The defaults of the optional settings, around five given credentials. *)
Definition default_config (api_key user_id photoset_id token board_id : option pystr)
  : Config :=
  mkConfig api_key user_id photoset_id token board_id
           6 440%float 420%float 0%float 0%float
           60%float 8%float (lit "#FFFFFF") 18 8%float 40.

Definition example_config : Config :=
  default_config (Some (lit "key")) (Some (lit "12345678@N00")) (Some (lit "7215"))
                 (Some (lit "token")) (Some (lit "board")).

(* ================================================================== *)
(** * Properties: the image selector *)
(* ================================================================== *)

Section Selector.

(** The media kind of a record, as [p.get("media")] reads it. *)
Definition media_kind (d : list (pystr * pyval)) : pyval :=
  match dict_lookup d (lit "media") with Some v => v | None => PNone end.

Definition is_video (d : list (pystr * pyval)) : bool :=
  eq_str (media_kind d) (lit "video").

Lemma pick_video (d : list (pystr * pyval)) :
  is_video d = true -> pick_best_image_url (PDict d) = Ok PNone.
Proof.
  intros Hv. unfold pick_best_image_url, py_get, rbind.
  unfold is_video, media_kind in Hv. now rewrite Hv.
Qed.

Lemma pick_photo (d : list (pystr * pyval)) :
  is_video d = false -> pick_best_image_url (PDict d) = first_present url_keys (PDict d).
Proof.
  intros Hv. unfold pick_best_image_url, py_get, rbind.
  unfold is_video, media_kind in Hv. now rewrite Hv.
Qed.

(** The scan passes over absent keys and stops at the first present one. *)
Lemma first_present_skip (d : list (pystr * pyval)) (before : list pystr) :
  forall rest,
    (forall k, In k before -> dict_lookup d k = None) ->
    first_present (before ++ rest) (PDict d) = first_present rest (PDict d).
Proof.
  induction before as [|k before IH]; intros rest Habs; [reflexivity|].
  simpl. rewrite (Habs k (or_introl eq_refl)). simpl.
  apply IH. intros k' Hk'. apply Habs. now right.
Qed.

Lemma first_present_hit (d : list (pystr * pyval)) (key : pystr) (v : pyval) rest :
  dict_lookup d key = Some v ->
  first_present (key :: rest) (PDict d) = Ok v.
Proof. intros Hk. simpl. now rewrite Hk. Qed.

Lemma first_present_none (d : list (pystr * pyval)) (keys : list pystr) :
  (forall k, In k keys -> dict_lookup d k = None) ->
  first_present keys (PDict d) = Ok PNone.
Proof.
  intros Habs. rewrite <- (app_nil_r keys).
  now rewrite first_present_skip.
Qed.

(** C4.  A record whose media kind is [video] gets no URL, whatever URL
    fields it carries.  Any other record gets the value of the first field
    present in the order url_c, url_l, url_z, url_m, url_h, url_k, url_o,
    and no URL when none of the seven is present.  In particular url_c wins
    over url_o when both are present. *)
Theorem pick_best_image_url_preference :
  (forall d, is_video d = true -> pick_best_image_url (PDict d) = Ok PNone)
  /\ (forall d before key after v,
         is_video d = false ->
         url_keys = before ++ key :: after ->
         (forall k, In k before -> dict_lookup d k = None) ->
         dict_lookup d key = Some v ->
         pick_best_image_url (PDict d) = Ok v)
  /\ (forall d,
         is_video d = false ->
         (forall k, In k url_keys -> dict_lookup d k = None) ->
         pick_best_image_url (PDict d) = Ok PNone)
  /\ (forall d c o,
         is_video d = false ->
         dict_lookup d (lit "url_c") = Some c ->
         dict_lookup d (lit "url_o") = Some o ->
         pick_best_image_url (PDict d) = Ok c)
  /\ url_keys = map lit ["url_c"; "url_l"; "url_z"; "url_m"; "url_h"; "url_k"; "url_o"]%string.
Proof.
  split; [exact pick_video|].
  split.
  { intros d before key after v Hv Hsplit Habs Hkey.
    rewrite (pick_photo _ Hv), Hsplit, first_present_skip by assumption.
    now apply first_present_hit. }
  split.
  { intros d Hv Habs. rewrite (pick_photo _ Hv). now apply first_present_none. }
  split.
  { intros d c o Hv Hc _. rewrite (pick_photo _ Hv).
    unfold url_keys. now apply first_present_hit. }
  reflexivity.
Qed.

(** A record with the cropped and the original size, and the same record
    marked as a video. *)
Definition photo_c_o : list (pystr * pyval) :=
  [ (lit "id", PStr (lit "531"));
    (lit "media", PStr (lit "photo"));
    (lit "url_o", PStr (lit "https://live.example/o.jpg"));
    (lit "url_c", PStr (lit "https://live.example/c.jpg")) ].

Definition video_c_o : list (pystr * pyval) :=
  dict_set photo_c_o (lit "media") (PStr (lit "video")).

Lemma pick_best_image_url_preference_witness :
  pick_best_image_url (PDict video_c_o) = Ok PNone
  /\ pick_best_image_url (PDict photo_c_o) = Ok (PStr (lit "https://live.example/c.jpg")).
Proof.
  destruct pick_best_image_url_preference as (Hvideo & _ & _ & Hco & _).
  split.
  - apply Hvideo. reflexivity.
  - apply (Hco photo_c_o _ (PStr (lit "https://live.example/o.jpg"))); reflexivity.
Defined.

End Selector.

(* ================================================================== *)
(** * Properties: identifier coercion *)
(* ================================================================== *)

Section Coercion.
Variable rt : Runtime.

(** An element is left alone unless it is a string of digits. *)
Lemma coerce_id_other (id : pyval) :
  (forall s, id = PStr s -> isdigit rt s = false) ->
  coerce_id rt id = Ok id.
Proof.
  intros H. destruct id; try reflexivity.
  simpl. now rewrite (H s eq_refl).
Qed.

(** A string of digits becomes what [int()] reads in it. *)
Lemma coerce_id_digits (s : pystr) (z : Z) :
  isdigit rt s = true -> int_of_str rt s = Ok z ->
  coerce_id rt (PStr s) = Ok (PInt z).
Proof. intros Hd Hz. simpl. now rewrite Hd, Hz. Qed.

(** When [int()] refuses a string of digits, so does the whole call. *)
Lemma coerce_id_refused (s : pystr) (e : exn) :
  isdigit rt s = true -> int_of_str rt s = Raise e ->
  coerce_id rt (PStr s) = Raise e.
Proof. intros Hd Hz. simpl. now rewrite Hd, Hz. Qed.

(** Whenever the function returns, it returns the elementwise image of its
    argument: same length, same order. *)
Lemma coerce_ids_elementwise (ids out : list pyval) :
  _coerce_ids_to_numbers rt ids = Ok out ->
  Forall2 (fun id x => coerce_id rt id = Ok x) ids out.
Proof.
  revert out. induction ids as [|id ids IH]; intros out H; simpl in H.
  - injection H as <-. constructor.
  - destruct (coerce_id rt id) as [x|e] eqn:Hx; simpl in H; [|discriminate].
    destruct (_coerce_ids_to_numbers rt ids) as [out'|e] eqn:Ho; simpl in H; [|discriminate].
    injection H as <-. constructor; auto.
Qed.

Lemma coerce_ids_length (ids out : list pyval) :
  _coerce_ids_to_numbers rt ids = Ok out -> List.length out = List.length ids.
Proof.
  intros H. apply coerce_ids_elementwise in H.
  induction H; simpl; congruence.
Qed.

(** It returns as soon as [int()] accepts every string of digits in the
    list. *)
Lemma coerce_ids_returns (ids : list pyval) :
  (forall s, In (PStr s) ids -> isdigit rt s = true -> exists z, int_of_str rt s = Ok z) ->
  exists out, _coerce_ids_to_numbers rt ids = Ok out.
Proof.
  induction ids as [|id ids IH]; intros H; simpl.
  - now exists [].
  - destruct IH as [out Hout]; [intros s Hs; apply H; now right|].
    rewrite Hout.
    assert (Hid : exists x, coerce_id rt id = Ok x).
    { destruct id; try (eexists; reflexivity).
      simpl. destruct (isdigit rt s) eqn:Hd; [|eexists; reflexivity].
      destruct (H s (or_introl eq_refl) Hd) as [z Hz]. rewrite Hz. eexists; reflexivity. }
    destruct Hid as [x Hx]. rewrite Hx. simpl. eexists; reflexivity.
Qed.

End Coercion.

(** The example of the specification. *)
Lemma coerce_ids_example :
  _coerce_ids_to_numbers cpython_latin1
    [PStr (lit "123"); PStr (lit "abc"); PStr (lit "45x")]
  = Ok [PInt 123; PStr (lit "abc"); PStr (lit "45x")].
Proof. reflexivity. Qed.

(** C9.  The superscript two (U+00B2) is a digit for [str.isdigit] and not a
    decimal character for [int()]: on the one-element list holding it the
    function raises [ValueError] instead of returning a list. *)
Theorem coerce_ids_superscript_two :
  isdigit cpython_latin1 [178%N] = true
  /\ int_of_str cpython_latin1 [178%N] = Raise ValueError
  /\ _coerce_ids_to_numbers cpython_latin1 [PStr [178%N]] = Raise ValueError.
Proof. repeat split. Qed.

(* ================================================================== *)
(** * Properties: the progress bar *)
(* ================================================================== *)

Section ProgressBar.
Variable rt : Runtime.

(** A count the index type holds. *)
Definition index_sized (n : Z) : Prop := (- PY_SSIZE_T_MAX - 1 <= n <= PY_SSIZE_T_MAX)%Z.

(** A number [str()] accepts: no limit, or no more digits than the limit. *)
Definition printable (z : Z) : Prop :=
  int_max_str_digits rt = 0%N \/ (int_digits z <= int_max_str_digits rt)%N.

Lemma concat_repeat_char (c : N) (k : nat) : List.concat (repeat [c] k) = repeat c k.
Proof. induction k as [|k IH]; simpl; [reflexivity|now rewrite IH]. Qed.

Lemma str_repeat_char (c : N) (n : Z) :
  index_sized n -> str_repeat [c] n = Ok (repeat c (Z.to_nat n)).
Proof.
  unfold index_sized, str_repeat. intros [Hlo Hhi].
  replace (n <? - PY_SSIZE_T_MAX - 1)%Z with false by (symmetry; apply Z.ltb_ge; lia).
  replace (PY_SSIZE_T_MAX <? n)%Z with false by (symmetry; apply Z.ltb_ge; lia).
  simpl orb. cbv iota.
  destruct (n <? 1)%Z eqn:H1.
  - apply Z.ltb_lt in H1. replace (Z.to_nat n) with 0%nat by lia. reflexivity.
  - apply Z.ltb_ge in H1.
    replace (PY_SSIZE_T_MAX / n <? Z.of_nat (List.length [c]))%Z with false.
    + now rewrite concat_repeat_char.
    + symmetry. apply Z.ltb_ge. simpl List.length.
      apply Z.div_le_lower_bound; lia.
Qed.

Lemma str_repeat_too_many (c : pystr) (n : Z) :
  ~ index_sized n -> str_repeat c n = Raise OverflowError.
Proof.
  unfold index_sized, str_repeat. intros H.
  destruct (n <? - PY_SSIZE_T_MAX - 1)%Z eqn:Hlo; [reflexivity|].
  destruct (PY_SSIZE_T_MAX <? n)%Z eqn:Hhi; [reflexivity|].
  apply Z.ltb_ge in Hlo, Hhi. lia.
Qed.


Lemma int_to_str_too_long (z : Z) : ~ printable z -> int_to_str rt z = Raise ValueError.
Proof.
  unfold printable, int_to_str. intros H.
  destruct (int_max_str_digits rt =? 0)%N eqn:H0; [apply N.eqb_eq in H0; tauto|].
  destruct (int_max_str_digits rt <? int_digits z)%N eqn:Hlt; [reflexivity|].
  apply N.ltb_ge in Hlt. tauto.
Qed.

(** Zero is printable under every limit the interpreter admits. *)
Lemma int_to_str_zero : int_to_str rt 0 = Ok (lit "0").
Proof.
  unfold int_to_str. change (int_digits 0) with 1%N.
  destruct (int_max_str_digits rt) as [|p]; [reflexivity|].
  replace (N.pos p <? 1)%N with false by (symmetry; apply N.ltb_ge; lia).
  reflexivity.
Qed.

(** With a total of zero, the three ways the call ends. *)
Lemma progress_bar_zero_total_cases (i width : Z) :
  progress_bar rt i 0 width
  = (dashes <~ str_repeat (lit "-") width ;;
     i_ <~ int_to_str rt i ;;
     Ok (lit "[" ++ dashes ++ lit "] " ++ i_ ++ lit "/0")).
Proof.
  unfold progress_bar. simpl. rewrite Z.sub_0_r.
  destruct (str_repeat (lit "-") width) as [dashes|e]; [|reflexivity]. simpl.
  destruct (int_to_str rt i) as [i_|e]; [|reflexivity]. simpl.
  now rewrite int_to_str_zero.
Qed.

Lemma progress_bar_zero_total_overflow (i width : Z) :
  ~ index_sized width -> progress_bar rt i 0 width = Raise OverflowError.
Proof.
  intros H. now rewrite progress_bar_zero_total_cases, (str_repeat_too_many _ H).
Qed.

Lemma progress_bar_zero_total_too_long (i width : Z) :
  index_sized width -> ~ printable i -> progress_bar rt i 0 width = Raise ValueError.
Proof.
  intros Hw Hi. rewrite progress_bar_zero_total_cases.
  change (lit "-") with [45%N]. rewrite (str_repeat_char _ Hw). simpl.
  now rewrite (int_to_str_too_long Hi).
Qed.


End ProgressBar.



(* ================================================================== *)
(** * Properties: the grid *)
(* ================================================================== *)




Section Grid.
Variable cfg : Config.



Lemma tile_center_no_columns (idx : Z) :
  IMAGES_PER_ROW cfg = 0%Z -> tile_center cfg idx = Raise ZeroDivisionError.
Proof. intros H. unfold tile_center, tile_col, pymod. now rewrite H. Qed.


End Grid.





(* ================================================================== *)
(** * Properties: the configuration check *)
(* ================================================================== *)

Section Startup.
Variable rt : Runtime.
Variable server : Server.
Variable cfg : Config.

(** A required value is missing when it is unset or the empty string. *)
Definition absent (v : option pystr) : Prop := v = None \/ v = Some [].

Lemma absent_falsy (v : option pystr) : negb (truthy (env v)) = true <-> absent v.
Proof.
  unfold absent. destruct v as [[|c s]|]; simpl; split; intros H; auto;
    try discriminate; destruct H; discriminate.
Qed.

Lemma missing_spec (k : pystr) :
  In k (missing cfg) <->
  exists name v, k = lit name /\ In (name, v) (required_env cfg) /\ absent v.
Proof.
  unfold missing. rewrite in_map_iff. split.
  - intros ([name v] & <- & Hin). apply filter_In in Hin as [Hin Hf].
    exists name, v. repeat split; auto. now apply absent_falsy.
  - intros (name & v & -> & Hin & Habs). exists (name, v). split; [reflexivity|].
    apply filter_In. split; [assumption|]. now apply absent_falsy.
Qed.

Lemma missing_nonempty :
  (exists name v, In (name, v) (required_env cfg) /\ absent v) ->
  Nat.eqb (List.length (missing cfg)) 0 = false.
Proof.
  intros (name & v & Hin & Habs).
  assert (H : In (lit name) (missing cfg)).
  { apply missing_spec. exists name, v. auto. }
  destruct (missing cfg); [contradiction|reflexivity].
Qed.

(** C7.  When one of the five required values is unset or empty, [main]
    ends with [SystemExit] before any other effect: the trace is left as it
    was, so no request has gone out.  The message names the missing values,
    those and no others, in the order of the table. *)
Theorem main_missing_config (fuel : nat) (w : World) :
  (exists name v, In (name, v) (required_env cfg) /\ absent v) ->
  main rt server cfg fuel w
  = Some (Raise (SystemExit (lit "Missing required env vars: "
                              ++ join (lit ", ") (missing cfg))), w)
  /\ (forall k, In k (missing cfg) <->
                exists name v, k = lit name /\ In (name, v) (required_env cfg) /\ absent v)
  /\ map fst (required_env cfg)
     = ["FLICKR_API_KEY"; "FLICKR_USER_ID"; "FLICKR_PHOTOSET_ID";
        "MIRO_TOKEN"; "MIRO_BOARD_ID"]%string.
Proof.
  intros Hmiss. split; [|split; [exact missing_spec|reflexivity]].
  unfold main. now rewrite (missing_nonempty Hmiss).
Qed.

(** With the five values present the check lets [main] go on. *)
Lemma missing_none :
  (forall name v, In (name, v) (required_env cfg) -> ~ absent v) ->
  missing cfg = [].
Proof.
  intros H. destruct (missing cfg) as [|k l] eqn:E; [reflexivity|].
  assert (Hk : In k (missing cfg)) by (rewrite E; now left).
  apply missing_spec in Hk as (name & v & _ & Hin & Habs).
  now destruct (H name v Hin).
Qed.

End Startup.

(** A server that is never reached in the examples below. *)
Definition silent_server : Server := fun _ _ => NoAnswer (lit "ConnectionError").

(** Two of the five values unset, one empty. *)
Definition partial_config : Config :=
  default_config None (Some []) (Some (lit "7215")) None (Some (lit "board")).

Lemma main_missing_config_witness :
  main cpython_latin1 silent_server partial_config 0 []
  = Some (Raise (SystemExit
                   (lit "Missing required env vars: FLICKR_API_KEY, FLICKR_USER_ID, MIRO_TOKEN")),
          []).
Proof.
  refine (eq_trans (proj1 (@main_missing_config cpython_latin1 silent_server
                             partial_config 0 [] _)) _).
  - exists "FLICKR_API_KEY"%string, None. split; [now left|now left].
  - reflexivity.
Defined.

(* ================================================================== *)
(** * Properties: the retry wrapper *)
(* ================================================================== *)

Section Retry.
Variable rt : Runtime.
Variable server : Server.
Variable cfg : Config.
Variable url : pystr.
Variable payload : pyval.

(** The request every attempt sends. *)
Definition post_request : Request := Post url (session_headers cfg) payload 60.


Definition error_body (r : Response) : Event :=
  EvPrint [Lit (lit "   Miro error body:"); Val (PStr (firstn 400 (text r)))].

(** The trace after [k] attempts that were each followed by the pause of
    two seconds. *)
Fixpoint after_retries (k : nat) (w : World) : World :=
  match k with
  | O => w
  | S k' => after_retries k' (EvSleep (PInt 2) :: EvRequest post_request :: w)
  end.

(** One attempt, with a body the encoder accepts. *)
Lemma post_attempts_step (left : nat) (attempt tries : Z) (w : World) :
  json_ok rt payload = true ->
  post_attempts rt server cfg (S left) attempt url payload tries w
  = match server w post_request with
    | NoAnswer kind => (Raise (RequestException kind), EvRequest post_request :: w)
    | Answer r =>
        if ((status_code r =? 429) && (attempt + 1 <? tries))%Z
        then post_attempts rt server cfg left (attempt + 1) url payload tries
               (EvSleep (PInt 2) :: EvRequest post_request :: w)
        else if is_error_status r
             then (Raise (HTTPError r), error_body r :: EvRequest post_request :: w)
             else match json_body r with
                  | Some v => (Ok v, EvRequest post_request :: w)
                  | None => (Raise JSONDecodeError, EvRequest post_request :: w)
                  end
    end.
Proof.
  intros Hjson.
  simpl. unfold bind at 1. unfold session_post, send. rewrite Hjson. fold post_request.
  destruct (server w post_request) as [r|kind]; [|reflexivity].
  destruct ((status_code r =? 429) && (attempt + 1 <? tries))%Z; [reflexivity|].
  unfold bind, try_except_HTTPError, raise_for_status, r_json, raise, ret, print, emit.
  destruct (is_error_status r); [reflexivity|].
  destruct (json_body r); reflexivity.
Qed.


Lemma rate_limit_is_error (r : Response) :
  status_code r = 429%Z -> is_error_status r = true.
Proof. intros H. unfold is_error_status. now rewrite H. Qed.

(** With no attempt to make, the loop body never runs and the statement
    after the loop raises. *)
Lemma miro_post_no_attempt (tries : Z) (w : World) :
  (tries <= 0)%Z ->
  _miro_post rt server cfg url payload tries w
  = (Raise (RuntimeError (lit "Failed after retries")), w).
Proof.
  intros H. unfold _miro_post.
  replace (Z.to_nat tries) with 0%nat by lia. reflexivity.
Qed.

(** Every attempt answered by the rate-limit status: all but the last are
    retried, the last goes through [raise_for_status]. *)
Lemma post_attempts_rate_limited (left : nat) :
  forall (attempt tries : Z) (w : World),
    json_ok rt payload = true ->
    (Z.of_nat (S left) + attempt = tries)%Z ->
    (forall k, (k <= left)%nat ->
               exists r, server (after_retries k w) post_request = Answer r
                         /\ status_code r = 429%Z) ->
    exists r,
      server (after_retries left w) post_request = Answer r
      /\ status_code r = 429%Z
      /\ post_attempts rt server cfg (S left) attempt url payload tries w
         = (Raise (HTTPError r),
            error_body r :: EvRequest post_request :: after_retries left w).
Proof.
  induction left as [|left IH]; intros attempt tries w Hjson Htries Hall.
  - destruct (Hall 0%nat (le_n _)) as (r & Hr & Hs). simpl in Hr.
    exists r. repeat split; try assumption.
    rewrite post_attempts_step, Hr, Hs by assumption.
    replace (attempt + 1 <? tries)%Z with false by (symmetry; apply Z.ltb_ge; lia).
    simpl. now rewrite (rate_limit_is_error _ Hs).
  - destruct (Hall 0%nat (Nat.le_0_l _)) as (r0 & Hr0 & Hs0). simpl in Hr0.
    destruct (IH (attempt + 1)%Z tries
                 (EvSleep (PInt 2) :: EvRequest post_request :: w)) as (r & Hr & Hs & Hrun).
    + assumption.
    + lia.
    + intros k Hk. apply (Hall (S k)). lia.
    + exists r. repeat split; try assumption.
      rewrite post_attempts_step, Hr0, Hs0 by assumption.
      replace (attempt + 1 <? tries)%Z with true by (symmetry; apply Z.ltb_lt; lia).
      exact Hrun.
Qed.

(** C1.  When each of the [tries] attempts (at least one) is answered by the
    rate-limit status 429, the wrapper pauses after every attempt but the
    last, prints the body of the last response and raises the [HTTPError]
    of that response.  For an attempt to be answered its request has to go
    out: the payload is one the encoder accepts.  (The [RuntimeError] after
    the loop is reached only when there is no attempt to make, see
    [miro_post_no_attempt].) *)
Theorem miro_post_rate_limited (tries : Z) (w : World) :
  json_ok rt payload = true ->
  (1 <= tries)%Z ->
  (forall k, (k < Z.to_nat tries)%nat ->
             exists r, server (after_retries k w) post_request = Answer r
                       /\ status_code r = 429%Z) ->
  exists r,
    server (after_retries (Z.to_nat tries - 1) w) post_request = Answer r
    /\ status_code r = 429%Z
    /\ _miro_post rt server cfg url payload tries w
       = (Raise (HTTPError r),
          error_body r :: EvRequest post_request :: after_retries (Z.to_nat tries - 1) w).
Proof.
  intros Hjson Htries Hall. unfold _miro_post.
  destruct (Z.to_nat tries) as [|left] eqn:E; [lia|].
  simpl Nat.sub. rewrite Nat.sub_0_r.
  apply post_attempts_rate_limited; [assumption|lia|].
  intros k Hk. apply Hall. lia.
Qed.

(** C8.  The first attempt answered by 429, the second by a success with a
    decodable body: the wrapper pauses two seconds between the two and
    returns the decoded body of the second, for any [tries] of at least
    two.  For the attempts to be answered their request has to go out: the
    payload is one the encoder accepts. *)
Theorem miro_post_second_attempt (tries : Z) (w : World) (r1 r2 : Response) (v : pyval) :
  json_ok rt payload = true ->
  (2 <= tries)%Z ->
  server w post_request = Answer r1 ->
  status_code r1 = 429%Z ->
  server (EvSleep (PInt 2) :: EvRequest post_request :: w) post_request = Answer r2 ->
  is_error_status r2 = false ->
  json_body r2 = Some v ->
  _miro_post rt server cfg url payload tries w
  = (Ok v, EvRequest post_request :: EvSleep (PInt 2) :: EvRequest post_request :: w).
Proof.
  intros Hjson Htries H1 Hs1 H2 Hok Hv. unfold _miro_post.
  destruct (Z.to_nat tries) as [|[|left]] eqn:E; try lia.
  rewrite post_attempts_step, H1, Hs1 by assumption.
  replace (0 + 1 <? tries)%Z with true by (symmetry; apply Z.ltb_lt; lia).
  simpl andb. cbv iota.
  rewrite post_attempts_step, H2 by assumption.
  assert (Hs2 : (status_code r2 =? 429)%Z = false).
  { apply Z.eqb_neq. intros Eq. unfold is_error_status in Hok. rewrite Eq in Hok.
    discriminate Hok. }
  rewrite Hs2, Hok, Hv. reflexivity.
Qed.

End Retry.

(** A board that answers every request with the rate-limit status. *)
Definition too_many_requests : Response :=
  mkResponse 429 (lit "Too many requests") None.

Definition always_429 : Server := fun _ _ => Answer too_many_requests.

Definition images_url : pystr := lit "https://api.miro.com/v2/boards/board/images".
Definition image_payload : pyval :=
  PDict [ (lit "data", PDict [(lit "url", PStr (lit "https://live.example/c.jpg"))]);
          (lit "position", PDict [(lit "x", PFloat 0%float); (lit "y", PFloat 0%float)]) ].

(** With the default two attempts, both answered by 429, what is raised is
    the [HTTPError] of the second response, not the [RuntimeError]. *)
Lemma miro_post_always_429 :
  let rq := post_request example_config images_url image_payload in
  _miro_post cpython_latin1 always_429 example_config images_url image_payload default_tries []
  = (Raise (HTTPError too_many_requests),
     [ error_body too_many_requests; EvRequest rq; EvSleep (PInt 2); EvRequest rq ]).
Proof. reflexivity. Qed.

Lemma miro_post_rate_limited_witness :
  exists r,
    status_code r = 429%Z
    /\ fst (_miro_post cpython_latin1 always_429 example_config images_url image_payload 3 [])
       = Raise (HTTPError r).
Proof.
  destruct (@miro_post_rate_limited cpython_latin1 always_429 example_config
              images_url image_payload 3 []) as (r & _ & Hs & Hrun).
  - reflexivity.
  - lia.
  - intros k _. exists too_many_requests. split; reflexivity.
  - exists r. split; [exact Hs|]. rewrite Hrun. reflexivity.
Defined.

(** A board that answers 429 to the first request and 201 afterwards. *)
Definition created : Response :=
  mkResponse 201 (lit "created 3458764517517819001")
             (Some (PDict [(lit "id", PStr (lit "3458764517517819001"))])).

Definition once_429 : Server :=
  fun w _ => match w with [] => Answer too_many_requests | _ => Answer created end.

Lemma miro_post_second_attempt_witness :
  let rq := post_request example_config images_url image_payload in
  _miro_post cpython_latin1 once_429 example_config images_url image_payload default_tries []
  = (Ok (PDict [(lit "id", PStr (lit "3458764517517819001"))]),
     [ EvRequest rq; EvSleep (PInt 2); EvRequest rq ]).
Proof.
  cbv zeta.
  apply (@miro_post_second_attempt cpython_latin1 once_429 example_config
           images_url image_payload default_tries [] too_many_requests created);
    first [reflexivity | unfold default_tries; lia].
Defined.

(* ================================================================== *)
(** * Properties: grouping *)
(* ================================================================== *)

Section Grouping.
Variable rt : Runtime.
Variable server : Server.
Variable cfg : Config.
Variable board_id : pyval.

(** The endpoint, when the board identifier can be formatted. *)
Definition groups_url : Result pystr := boards_url rt board_id "groups".

(** One shape, posted to [url] through the retry wrapper with its default. *)
Definition post_shape (url : pystr) (shape : pyval) : M pyval :=
  _miro_post rt server cfg url shape default_tries.

Definition entered (item_ids : list pyval) : Event :=
  EvEnter (lit "miro_group_items") [board_id; PList item_ids].

(** The three shapes. *)
Definition shape_a (ids_numbers : list pyval) : pyval :=
  PDict [(lit "data", PDict [(lit "items", PList ids_numbers)])].
Definition shape_b (item_ids : list pyval) : pyval :=
  PDict [(lit "data", PDict [(lit "itemIds", PList item_ids)])].
Definition shape_c (item_ids : list pyval) : pyval :=
  PDict [(lit "itemIds", PList item_ids)].

Lemma group_payloads_shapes (ids_numbers item_ids : list pyval) :
  group_payloads ids_numbers item_ids
  = [shape_a ids_numbers; shape_b item_ids; shape_c item_ids].
Proof. reflexivity. Qed.

(** One turn of the loop over the shapes. *)
Lemma try_payloads_step (url : pystr) (shape : pyval) (rest : list pyval)
      (last : option exn) (w : World) :
  try_payloads rt server cfg url (shape :: rest) last w
  = match post_shape url shape w with
    | (Raise (HTTPError r), w1) =>
        try_payloads rt server cfg url rest (Some (HTTPError r)) (error_body r :: w1)
    | other => other
    end.
Proof.
  simpl. unfold post_shape.
  destruct (_miro_post rt server cfg url shape default_tries w) as [[v|e] w1];
    [reflexivity|].
  destruct e; reflexivity.
Qed.

(** C2.  On identifiers the coercion accepts, [miro_group_items] posts the
    shapes in the order (a) coerced list under data/items, (b) original
    list under data/itemIds, (c) original list under itemIds.  An attempt
    that returns ends the call with its response, and no further shape is
    posted.  An attempt that raises [HTTPError] has the body of its
    response printed and the next shape tried; after the third, that error
    is raised.  An attempt that raises anything else ends the call with
    that exception.  (A board identifier that cannot be formatted into the
    endpoint ends the call before any of this.) *)
Theorem miro_group_items_shapes (item_ids ids_numbers : list pyval) (w : World) :
  _coerce_ids_to_numbers rt item_ids = Ok ids_numbers ->
  miro_group_items rt server cfg board_id item_ids w
  = match groups_url with
    | Raise e => (Raise e, entered item_ids :: w)
    | Ok url =>
        match post_shape url (shape_a ids_numbers) (entered item_ids :: w) with
        | (Raise (HTTPError r1), w1) =>
            match post_shape url (shape_b item_ids) (error_body r1 :: w1) with
            | (Raise (HTTPError r2), w2) =>
                match post_shape url (shape_c item_ids) (error_body r2 :: w2) with
                | (Raise (HTTPError r3), w3) => (Raise (HTTPError r3), error_body r3 :: w3)
                | other => other
                end
            | other => other
            end
        | other => other
        end
    end.
Proof.
  intros Hc. unfold miro_group_items.
  unfold bind at 1. unfold emit. fold (entered item_ids).
  unfold bind at 1. unfold lift at 1. fold groups_url.
  destruct groups_url as [url|e]; [|reflexivity].
  unfold bind, lift. rewrite Hc.
  rewrite group_payloads_shapes, !try_payloads_step.
  destruct (post_shape url (shape_a ids_numbers) (entered item_ids :: w)) as [[v|[]] w1];
    reflexivity.
Qed.

(** The call as the sentence of the specification reads: a shape has failed
    when posting it raises, whatever the exception. *)
Fixpoint try_payloads_any_failure (url : pystr) (payloads : list pyval) (last : option exn)
  : M pyval :=
  match payloads with
  | [] => raise_last last
  | p :: rest =>
      fun w =>
        match post_shape url p w with
        | (Ok v, w1) => (Ok v, w1)
        | (Raise (HTTPError r), w1) =>
            try_payloads_any_failure url rest (Some (HTTPError r)) (error_body r :: w1)
        | (Raise e, w1) => try_payloads_any_failure url rest (Some e) w1
        end
  end.

Definition group_items_any_failure (item_ids : list pyval) : M pyval :=
  emit (entered item_ids) ;;
  endpoint <- lift groups_url ;;
  ids_numbers <- lift (_coerce_ids_to_numbers rt item_ids) ;;
  try_payloads_any_failure endpoint (group_payloads ids_numbers item_ids) None.

(** Where every failed attempt fails with an [HTTPError], the two readings
    coincide. *)
Lemma try_payloads_agree (url : pystr) (payloads : list pyval) :
  (forall shape w e w1, post_shape url shape w = (Raise e, w1) -> is_HTTPError e = true) ->
  forall last w,
    try_payloads rt server cfg url payloads last w
    = try_payloads_any_failure url payloads last w.
Proof.
  intros Hhttp. induction payloads as [|p rest IH]; intros last w; [reflexivity|].
  rewrite try_payloads_step. simpl.
  destruct (post_shape url p w) as [[v|e] w1] eqn:E; [reflexivity|].
  pose proof (Hhttp _ _ _ _ E) as He.
  destruct e; try discriminate He. apply IH.
Qed.

Lemma group_items_agree (item_ids : list pyval) (w : World) :
  (forall url shape w e w1,
      post_shape url shape w = (Raise e, w1) -> is_HTTPError e = true) ->
  miro_group_items rt server cfg board_id item_ids w
  = group_items_any_failure item_ids w.
Proof.
  intros Hhttp. unfold miro_group_items, group_items_any_failure.
  unfold bind at 1 4. unfold emit. fold (entered item_ids).
  unfold bind at 1 3. unfold lift at 1 3. fold groups_url.
  destruct groups_url as [url|e]; [|reflexivity].
  unfold bind, lift.
  destruct (_coerce_ids_to_numbers rt item_ids) as [ids_numbers|e]; [|reflexivity].
  apply try_payloads_agree. apply Hhttp.
Qed.

End Grouping.

(** A board that rejects every body with 400. *)
Definition bad_request : Response := mkResponse 400 (lit "Invalid parameters") None.
Definition always_400 : Server := fun _ _ => Answer bad_request.

Definition two_ids : list pyval := [PStr (lit "3458764517517819001"); PStr (lit "x-17")].

(** The endpoint for the board of the examples. *)
Definition board_groups_url : pystr := lit "https://api.miro.com/v2/boards/board/groups".

Lemma miro_group_items_shapes_witness :
  let board := PStr (lit "board") in
  let rq := post_request example_config board_groups_url in
  groups_url cpython_latin1 board = Ok board_groups_url
  /\ miro_group_items cpython_latin1 always_400 example_config board two_ids []
     = (Raise (HTTPError bad_request),
        [ error_body bad_request; error_body bad_request;
          EvRequest (rq (PDict [(lit "itemIds", PList two_ids)]));
          error_body bad_request; error_body bad_request;
          EvRequest (rq (PDict [(lit "data", PDict [(lit "itemIds", PList two_ids)])]));
          error_body bad_request; error_body bad_request;
          EvRequest (rq (PDict [(lit "data",
                                 PDict [(lit "items",
                                         PList [PInt 3458764517517819001; PStr (lit "x-17")])])]));
          entered board two_ids ]).
Proof.
  cbv zeta. split; [reflexivity|].
  rewrite (@miro_group_items_shapes cpython_latin1 always_400 example_config
             (PStr (lit "board")) two_ids
             [PInt 3458764517517819001; PStr (lit "x-17")] [] eq_refl).
  reflexivity.
Defined.

(** A board that cannot be reached for the first request and accepts every
    later one. *)
Definition group_created : Response :=
  mkResponse 201 (lit "group 77") (Some (PDict [(lit "id", PStr (lit "77"))])).

Definition unreachable_once : Server :=
  fun w _ =>
    if existsb (fun e => match e with EvRequest _ => true | _ => false end) w
    then Answer group_created
    else NoAnswer (lit "ConnectionError").

(** The first shape meets a connection error; the second would be accepted.
    The call ends with the connection error after its single request, where
    trying the shapes until one succeeds would have returned the response to
    the second. *)
Lemma miro_group_items_connection_error :
  let board := PStr (lit "board") in
  let rq := post_request example_config board_groups_url in
  miro_group_items cpython_latin1 unreachable_once example_config board two_ids []
  = (Raise (RequestException (lit "ConnectionError")),
     [ EvRequest (rq (shape_a [PInt 3458764517517819001; PStr (lit "x-17")]));
       entered board two_ids ])
  /\ group_items_any_failure cpython_latin1 unreachable_once example_config board two_ids []
     = (Ok (PDict [(lit "id", PStr (lit "77"))]),
        [ EvRequest (rq (shape_b two_ids));
          EvRequest (rq (shape_a [PInt 3458764517517819001; PStr (lit "x-17")]));
          entered board two_ids ]).
Proof. split; reflexivity. Qed.

(* ================================================================== *)
(** * Properties: the album reader *)
(* ================================================================== *)

Section Reader.
Variable rt : Runtime.
Variable server : Server.
Variables photoset_id user_id api_key : pyval.

(** The request for one page: 500 records a page, thirty seconds. *)
Definition page_request (page : Z) : Request :=
  Get FLICKR_ENDPOINT (flickr_params photoset_id user_id api_key page) 30.

Lemma page_request_params (page : Z) :
  exists params,
    page_request page = Get FLICKR_ENDPOINT (PDict params) 30
    /\ dict_lookup params (lit "per_page") = Some (PInt 500)
    /\ dict_lookup params (lit "page") = Some (PInt page).
Proof. eexists. repeat split. Qed.

(** The trace after requests for [n] consecutive pages from [page] on. *)
Fixpoint page_requests (n : nat) (page : Z) (w : World) : World :=
  match n with
  | O => w
  | S n' => page_requests n' (page + 1) (EvRequest (page_request page) :: w)
  end.

Lemma fetch_page_step (page : Z) (w : World) :
  fetch_page server photoset_id user_id api_key page w
  = match server w (page_request page) with
    | NoAnswer kind => (Raise (RequestException kind), EvRequest (page_request page) :: w)
    | Answer r =>
        if is_error_status r
        then (Raise (HTTPError r), EvRequest (page_request page) :: w)
        else match json_body r with
             | Some data => (Ok data, EvRequest (page_request page) :: w)
             | None => (Raise JSONDecodeError, EvRequest (page_request page) :: w)
             end
    end.
Proof.
  unfold fetch_page, bind, requests_get, send. fold (page_request page).
  destruct (server w (page_request page)) as [r|kind]; [|reflexivity].
  unfold raise_for_status, r_json, raise, ret.
  destruct (is_error_status r); [reflexivity|].
  destruct (json_body r); reflexivity.
Qed.

Lemma fetch_page_trace (page : Z) (w w1 : World) (res : Result pyval) :
  fetch_page server photoset_id user_id api_key page w = (res, w1) ->
  w1 = EvRequest (page_request page) :: w.
Proof.
  rewrite fetch_page_step.
  destruct (server w (page_request page)) as [r|kind]; [|congruence].
  destruct (is_error_status r); [congruence|].
  destruct (json_body r); congruence.
Qed.

(** The two conditions of the loop, on the decoded body of a page, said on
    the body itself.

    [lacks]: the body is an object without the container.  It has no
    [photoset], or one that is empty ([None], zero, an empty string, list or
    object), or one without a [photo]: an object without that key, and, for
    what else [in] can be asked of, a list without that string or a string
    without that word.

    [holds recs pages]: the body is an object whose [photoset] is an object
    with a [photo]; iterating over that gives the records [recs]; the
    [photoset] reports [pages] pages in all, one when it says nothing. *)
Inductive lacks : pyval -> Prop :=
| lacks_no_photoset (d : list (pystr * pyval)) :
    dict_lookup d (lit "photoset") = None ->
    lacks (PDict d)
| lacks_empty_photoset (d : list (pystr * pyval)) (photoset : pyval) :
    dict_lookup d (lit "photoset") = Some photoset ->
    truthy photoset = false ->
    lacks (PDict d)
| lacks_no_photo (d ps : list (pystr * pyval)) :
    dict_lookup d (lit "photoset") = Some (PDict ps) ->
    dict_lookup ps (lit "photo") = None ->
    lacks (PDict d)
| lacks_unlisted (d : list (pystr * pyval)) (l : list pyval) :
    dict_lookup d (lit "photoset") = Some (PList l) ->
    (forall x, In x l -> x <> PStr (lit "photo")) ->
    lacks (PDict d)
| lacks_unnamed (d : list (pystr * pyval)) (s : pystr) :
    dict_lookup d (lit "photoset") = Some (PStr s) ->
    is_substring (lit "photo") s = false ->
    lacks (PDict d).

Definition holds (data : pyval) (recs : list pyval) (pages : Z) : Prop :=
  exists d ps photo,
    data = PDict d
    /\ dict_lookup d (lit "photoset") = Some (PDict ps)
    /\ dict_lookup ps (lit "photo") = Some photo
    /\ py_iter photo = Ok recs
    /\ py_int rt (match dict_lookup ps (lit "pages") with
                  | Some total => total
                  | None => PInt 1
                  end) = Ok pages.

(** A body with a [photoset] object holding a list under [photo] and an
    integer under [pages]. *)
Lemma holds_album (d ps : list (pystr * pyval)) (recs : list pyval) (pages : Z) :
  dict_lookup d (lit "photoset") = Some (PDict ps) ->
  dict_lookup ps (lit "photo") = Some (PList recs) ->
  dict_lookup ps (lit "pages") = Some (PInt pages) ->
  holds (PDict d) recs pages.
Proof.
  intros Hd Hph Hpg. exists d, ps, (PList recs).
  rewrite Hpg. repeat split; assumption.
Qed.

Lemma pystr_eqb_eq (a b : pystr) : pystr_eqb a b = true <-> a = b.
Proof.
  unfold pystr_eqb. destruct (list_eq_dec N.eq_dec a b); split; intros H;
    try reflexivity; try assumption; try discriminate; contradiction.
Qed.

(** [k in l] for a list: some element is the string [k]. *)
Lemma not_in_list (k : pystr) (l : list pyval) :
  existsb (fun x => eq_str x k) l = false <-> (forall x, In x l -> x <> PStr k).
Proof.
  split.
  - intros H x Hin ->.
    assert (Hex : existsb (fun x => eq_str x k) l = true).
    { apply existsb_exists. exists (PStr k). split; [assumption|].
      simpl. now apply pystr_eqb_eq. }
    congruence.
  - intros H. destruct (existsb (fun x => eq_str x k) l) eqn:E; [|reflexivity].
    apply existsb_exists in E as (x & Hin & Hx).
    destruct x; simpl in Hx; try discriminate.
    apply pystr_eqb_eq in Hx. subst. now destruct (H _ Hin).
Qed.

Lemma lookup_truthy (ps : list (pystr * pyval)) (k : pystr) (v : pyval) :
  dict_lookup ps k = Some v -> truthy (PDict ps) = true.
Proof. destruct ps; [discriminate|reflexivity]. Qed.

Lemma page_step_lacks (data : pyval) (page : Z) :
  lacks data -> page_step rt data page = Break [].
Proof.
  intros [d Hd|d photoset Hd Hf|d ps Hd Hps|d l Hd Hl|d s Hd Hs];
    unfold page_step; cbn [py_get]; rewrite Hd; unfold lacks_container.
  - reflexivity.
  - now rewrite Hf.
  - destruct (negb (truthy (PDict ps))); [reflexivity|].
    cbn [py_contains rbind]. now rewrite Hps.
  - destruct (negb (truthy (PList l))); [reflexivity|].
    cbn [py_contains rbind]. apply not_in_list in Hl. now rewrite Hl.
  - destruct (negb (truthy (PStr s))); [reflexivity|].
    cbn [py_contains rbind]. now rewrite Hs.
Qed.

Lemma page_step_holds (data : pyval) (recs : list pyval) (pages page : Z) :
  holds data recs pages ->
  page_step rt data page = if (page >=? pages)%Z then Break recs else NextPage recs.
Proof.
  intros (d & ps & photo & -> & Hd & Hph & Hrecs & Hpages).
  unfold page_step. cbn [py_get]. rewrite Hd. unfold lacks_container.
  rewrite (lookup_truthy _ _ Hph). cbn [negb py_contains py_getitem rbind py_get].
  rewrite Hph. cbn [negb rbind]. rewrite Hrecs, Hpages. reflexivity.
Qed.

(** What the code makes of a body, read back: a turn that goes past line 62
    has a body that holds records. *)
Lemma page_step_past (data photoset : pyval) (recs : list pyval) (pages : Z) :
  py_get data (lit "photoset") PNone = Ok photoset ->
  lacks_container photoset = Ok false ->
  (ph <~ py_getitem photoset (lit "photo") ;; py_iter ph) = Ok recs ->
  (pg <~ py_get photoset (lit "pages") (PInt 1) ;; py_int rt pg) = Ok pages ->
  holds data recs pages.
Proof.
  intros Hget Hl Hrecs Hpages.
  destruct data as [| | | | | |d]; try discriminate Hget.
  destruct photoset as [| | | | | |ps]; try discriminate Hrecs.
  cbn [py_get] in Hget. cbn [py_getitem] in Hrecs. cbn [py_get rbind] in Hpages.
  destruct (dict_lookup ps (lit "photo")) as [photo|] eqn:Hph; [|discriminate Hrecs].
  cbn [rbind] in Hrecs.
  exists d, ps, photo. repeat split; try assumption.
  destruct (dict_lookup d (lit "photoset")) as [v|]; [|discriminate Hget].
  now injection Hget as ->.
Qed.

(** And a turn that breaks at line 62 has a body that lacks the container. *)
Lemma page_step_stops (data photoset : pyval) :
  py_get data (lit "photoset") PNone = Ok photoset ->
  lacks_container photoset = Ok true ->
  lacks data.
Proof.
  intros Hget Hl.
  destruct data as [| | | | | |d]; try discriminate Hget.
  cbn [py_get] in Hget.
  destruct (dict_lookup d (lit "photoset")) as [v|] eqn:Hd;
    [|now apply lacks_no_photoset].
  injection Hget as ->. unfold lacks_container in Hl.
  destruct (truthy photoset) eqn:Ht; [|now apply (lacks_empty_photoset _ Hd)].
  cbn [negb] in Hl.
  destruct photoset as [| | | |s|l|ps]; try discriminate Hl; cbn [py_contains rbind] in Hl.
  - apply (lacks_unnamed _ Hd). destruct (is_substring (lit "photo") s);
      [discriminate Hl|reflexivity].
  - apply (lacks_unlisted _ Hd). apply not_in_list.
    destruct (existsb (fun x => eq_str x (lit "photo")) l); [discriminate Hl|reflexivity].
  - apply (lacks_no_photo _ Hd).
    destruct (dict_lookup ps (lit "photo")); [discriminate Hl|reflexivity].
Qed.

Lemma page_step_break (data : pyval) (page : Z) (recs : list pyval) :
  page_step rt data page = Break recs ->
  (lacks data /\ recs = [])
  \/ (exists pages, holds data recs pages /\ (page >= pages)%Z).
Proof.
  unfold page_step.
  destruct (py_get data (lit "photoset") PNone) as [ps|] eqn:Hps; [|discriminate].
  destruct (lacks_container ps) as [[|]|] eqn:Hl; [| |discriminate].
  - intros H. injection H as <-. left. split; [|reflexivity].
    now apply (page_step_stops _ Hps).
  - destruct (ph <~ py_getitem ps (lit "photo");; py_iter ph) as [rs|] eqn:Hrs;
      [|discriminate].
    destruct (pg <~ py_get ps (lit "pages") (PInt 1);; py_int rt pg) as [pages|] eqn:Hpg;
      [|discriminate].
    destruct (page >=? pages)%Z eqn:Hcmp; [|discriminate].
    intros H. injection H as <-. right. exists pages. split.
    + now apply (page_step_past _ Hps Hl).
    + apply Z.geb_le in Hcmp. lia.
Qed.

Lemma page_step_next (data : pyval) (page : Z) (recs : list pyval) :
  page_step rt data page = NextPage recs ->
  exists pages, holds data recs pages /\ (page < pages)%Z.
Proof.
  unfold page_step.
  destruct (py_get data (lit "photoset") PNone) as [ps|] eqn:Hps; [|discriminate].
  destruct (lacks_container ps) as [[|]|] eqn:Hl; try discriminate.
  destruct (ph <~ py_getitem ps (lit "photo");; py_iter ph) as [rs|] eqn:Hrs;
    [|discriminate].
  destruct (pg <~ py_get ps (lit "pages") (PInt 1);; py_int rt pg) as [pages|] eqn:Hpg;
    [|discriminate].
  destruct (page >=? pages)%Z eqn:Hcmp; [discriminate|].
  intros H. injection H as <-. exists pages. split.
  - now apply (page_step_past _ Hps Hl).
  - rewrite Z.geb_leb in Hcmp. apply Z.leb_gt in Hcmp. lia.
Qed.

(** The reading of an album, as the specification describes it: from page
    [page] and trace [w], the records [out] are yielded and the reader
    stops with trace [w']. *)
Inductive reads : Z -> World -> list pyval -> World -> Prop :=
| reads_lacks (page : Z) (w w1 : World) (data : pyval) :
    fetch_page server photoset_id user_id api_key page w = (Ok data, w1) ->
    lacks data ->
    reads page w [] w1
| reads_last (page pages : Z) (w w1 : World) (data : pyval) (recs : list pyval) :
    fetch_page server photoset_id user_id api_key page w = (Ok data, w1) ->
    holds data recs pages ->
    (page >= pages)%Z ->
    reads page w recs w1
| reads_next (page pages : Z) (w w1 w2 : World) (data : pyval) (recs rest : list pyval) :
    fetch_page server photoset_id user_id api_key page w = (Ok data, w1) ->
    holds data recs pages ->
    (page < pages)%Z ->
    reads (page + 1) w1 rest w2 ->
    reads page w (recs ++ rest) w2.

Lemma photos_from_reads (fuel : nat) :
  forall page w out w',
    photos_from rt server fuel photoset_id user_id api_key page w
    = Some (out, StopIteration, w') ->
    reads page w out w'.
Proof.
  induction fuel as [|fuel IH]; intros page w out w' H; simpl in H; [discriminate|].
  destruct (fetch_page server photoset_id user_id api_key page w) as [[data|e] w1] eqn:Hf;
    [|discriminate].
  destruct (page_step rt data page) as [ps|ps|ps e] eqn:Hstep.
  - injection H as <- <-.
    destruct (page_step_break _ _ Hstep) as [[Hl ->]|(pages & Hh & Hge)].
    + eapply reads_lacks; eassumption.
    + eapply reads_last; eassumption.
  - destruct (photos_from rt server fuel photoset_id user_id api_key (page + 1) w1)
      as [[[rest fin] w2]|] eqn:Hrec; [|discriminate].
    injection H as <- -> <-.
    destruct (page_step_next _ _ Hstep) as (pages & Hh & Hlt).
    eapply reads_next; try eassumption. now apply IH.
  - discriminate.
Qed.

Lemma reads_photos_from (page : Z) (w : World) (out : list pyval) (w' : World) :
  reads page w out w' ->
  exists n, forall fuel,
    photos_from rt server (n + fuel) photoset_id user_id api_key page w
    = Some (out, StopIteration, w').
Proof.
  induction 1 as [page w w1 data Hf Hl
                 |page pages w w1 data recs Hf Hh Hge
                 |page pages w w1 w2 data recs rest Hf Hh Hlt _ [n IH]].
  - exists 1%nat. intros fuel. simpl. now rewrite Hf, (page_step_lacks _ Hl).
  - exists 1%nat. intros fuel. simpl. rewrite Hf, (page_step_holds _ Hh).
    replace (page >=? pages)%Z with true; [reflexivity|].
    symmetry. apply Z.geb_le. lia.
  - exists (S n). intros fuel. simpl. rewrite Hf, (page_step_holds _ Hh).
    replace (page >=? pages)%Z with false.
    + now rewrite IH.
    + symmetry. rewrite Z.geb_leb. apply Z.leb_gt. lia.
Qed.

(** Reading requests consecutive pages and does nothing else. *)
Lemma reads_trace (page : Z) (w : World) (out : list pyval) (w' : World) :
  reads page w out w' ->
  exists n, (1 <= n)%nat /\ w' = page_requests n page w.
Proof.
  induction 1 as [page w w1 data Hf Hl
                 |page pages w w1 data recs Hf Hh Hge
                 |page pages w w1 w2 data recs rest Hf Hh Hlt _ (n & Hn & IH)].
  - exists 1%nat. split; [lia|]. simpl. now apply fetch_page_trace in Hf.
  - exists 1%nat. split; [lia|]. simpl. now apply fetch_page_trace in Hf.
  - exists (S n). split; [lia|]. simpl. apply fetch_page_trace in Hf. now subst.
Qed.

(** An album of two pages. *)
Lemma reads_two_pages (w w1 w2 : World) (d1 d2 : pyval) (recs1 recs2 : list pyval) :
  fetch_page server photoset_id user_id api_key 1 w = (Ok d1, w1) ->
  holds d1 recs1 2 ->
  fetch_page server photoset_id user_id api_key 2 w1 = (Ok d2, w2) ->
  holds d2 recs2 2 ->
  reads 1 w (recs1 ++ recs2) w2.
Proof.
  intros Hf1 Hh1 Hf2 Hh2.
  eapply reads_next; [exact Hf1|exact Hh1|lia|].
  eapply reads_last; [exact Hf2|exact Hh2|lia].
Qed.

(** C3.  The reader and the description agree: whenever the generator is
    exhausted it has read the album as [reads] says, and every reading is
    reached with enough fuel.  A reading starts at the page asked for (page
    1 for the album), asks for 500 records a page, yields the records of
    every page in order, moves on by one page while the page number is
    below the reported total and stops at the first page that lacks the
    container or whose number has reached the total; its trace is the
    requests for these consecutive pages and nothing else.  For an album of
    two pages it yields the records of both and makes two requests.  For a
    first page without a [photoset], or with a [photoset] object without a
    [photo], it yields nothing and makes that one request. *)
Theorem flickr_photos_in_photoset_reads :
  (forall fuel w out w',
      flickr_photos_in_photoset rt server fuel photoset_id user_id api_key w
      = Some (out, StopIteration, w') ->
      reads 1 w out w')
  /\ (forall w out w',
         reads 1 w out w' ->
         exists n, forall fuel,
           flickr_photos_in_photoset rt server (n + fuel) photoset_id user_id api_key w
           = Some (out, StopIteration, w'))
  /\ (forall page w out w',
         reads page w out w' ->
         exists n, (1 <= n)%nat /\ w' = page_requests n page w)
  /\ (forall page, exists params,
         page_request page = Get FLICKR_ENDPOINT (PDict params) 30
         /\ dict_lookup params (lit "per_page") = Some (PInt 500)
         /\ dict_lookup params (lit "page") = Some (PInt page))
  /\ (forall w w1 w2 d1 d2 recs1 recs2 fuel,
         fetch_page server photoset_id user_id api_key 1 w = (Ok d1, w1) ->
         holds d1 recs1 2 ->
         fetch_page server photoset_id user_id api_key 2 w1 = (Ok d2, w2) ->
         holds d2 recs2 2 ->
         flickr_photos_in_photoset rt server (2 + fuel) photoset_id user_id api_key w
         = Some (recs1 ++ recs2, StopIteration,
                 EvRequest (page_request 2) :: EvRequest (page_request 1) :: w))
  /\ (forall w w1 d fuel,
         fetch_page server photoset_id user_id api_key 1 w = (Ok (PDict d), w1) ->
         dict_lookup d (lit "photoset") = None
         \/ (exists ps, dict_lookup d (lit "photoset") = Some (PDict ps)
                        /\ dict_lookup ps (lit "photo") = None) ->
         flickr_photos_in_photoset rt server (1 + fuel) photoset_id user_id api_key w
         = Some ([], StopIteration, EvRequest (page_request 1) :: w)).
Proof.
  split; [intros fuel w out w'; apply photos_from_reads|].
  split; [intros w out w'; apply reads_photos_from|].
  split; [exact reads_trace|].
  split; [exact page_request_params|].
  split.
  - intros w w1 w2 d1 d2 recs1 recs2 fuel Hf1 Hh1 Hf2 Hh2.
    unfold flickr_photos_in_photoset. simpl.
    rewrite Hf1, (page_step_holds _ Hh1). simpl.
    rewrite Hf2, (page_step_holds _ Hh2). simpl.
    apply fetch_page_trace in Hf1, Hf2. now subst.
  - intros w w1 d fuel Hf Hd.
    assert (Hl : lacks (PDict d)).
    { destruct Hd as [Hd|(ps & Hd & Hps)];
        [now apply lacks_no_photoset|now apply (lacks_no_photo _ Hd)]. }
    unfold flickr_photos_in_photoset. simpl.
    rewrite Hf, (page_step_lacks _ Hl).
    apply fetch_page_trace in Hf. now subst.
Qed.

End Reader.

(** A mocked listing service: an album of two pages, 500 records on the
    first and 10 on the second, each page reporting two pages in all. *)
Definition record (k : nat) : pyval :=
  PDict [ (lit "id", PStr (str_of_int (Z.of_nat k)));
          (lit "title", PStr (lit "untitled"));
          (lit "media", PStr (lit "photo"));
          (lit "url_c", PStr (lit "https://live.example/" ++ str_of_int (Z.of_nat k))) ].

Definition album_page (recs : list pyval) (page pages : Z) : pyval :=
  PDict [ (lit "photoset",
           PDict [ (lit "id", PStr (lit "7215"));
                   (lit "photo", PList recs);
                   (lit "page", PInt page);
                   (lit "pages", PInt pages) ]);
          (lit "stat", PStr (lit "ok")) ].

Definition page_one : list pyval := map record (seq 1 500).
Definition page_two : list pyval := map record (seq 501 10).

Definition two_page_album : Server :=
  fun _ rq =>
    match rq with
    | Get _ (PDict params) _ =>
        match dict_lookup params (lit "page") with
        | Some (PInt 1) => Answer (mkResponse 200 [] (Some (album_page page_one 1 2)))
        | Some (PInt 2) => Answer (mkResponse 200 [] (Some (album_page page_two 2 2)))
        | _ => Answer (mkResponse 200 [] (Some (PDict [(lit "stat", PStr (lit "fail"))])))
        end
    | _ => NoAnswer (lit "ConnectionError")
    end.

(** A listing service that knows of no such album. *)
Definition no_such_album : Server :=
  fun _ _ => Answer (mkResponse 200 []
                       (Some (PDict [ (lit "stat", PStr (lit "fail"));
                                      (lit "message", PStr (lit "Photoset not found")) ]))).

Lemma flickr_photos_in_photoset_reads_witness :
  let psid := PStr (lit "7215") in
  let uid := PStr (lit "12345678@N00") in
  let key := PStr (lit "key") in
  flickr_photos_in_photoset cpython_latin1 two_page_album 2 psid uid key []
  = Some (page_one ++ page_two, StopIteration,
          [ EvRequest (page_request psid uid key 2); EvRequest (page_request psid uid key 1) ])
  /\ List.length (page_one ++ page_two) = 510%nat
  /\ flickr_photos_in_photoset cpython_latin1 no_such_album 1 psid uid key []
     = Some ([], StopIteration, [ EvRequest (page_request psid uid key 1) ]).
Proof.
  cbv zeta. split; [|split; [reflexivity|]].
  - destruct (@flickr_photos_in_photoset_reads cpython_latin1 two_page_album
                (PStr (lit "7215")) (PStr (lit "12345678@N00")) (PStr (lit "key")))
      as (_ & _ & _ & _ & Htwo & _).
    eapply (Htwo [] _ _ (album_page page_one 1 2) (album_page page_two 2 2)
                 page_one page_two 0%nat).
    + reflexivity.
    + eapply holds_album; reflexivity.
    + reflexivity.
    + eapply holds_album; reflexivity.
  - destruct (@flickr_photos_in_photoset_reads cpython_latin1 no_such_album
                (PStr (lit "7215")) (PStr (lit "12345678@N00")) (PStr (lit "key")))
      as (_ & _ & _ & _ & _ & Hnone).
    eapply (Hnone [] _ _ 0%nat).
    + reflexivity.
    + left. reflexivity.
Defined.

(* ================================================================== *)
(** * Properties: the per-photo pipeline *)
(* ================================================================== *)

(** How often [miro_group_items] has been entered, on a trace. *)
Definition is_group_call (e : Event) : bool :=
  match e with
  | EvEnter fn _ => pystr_eqb fn (lit "miro_group_items")
  | _ => false
  end.

Fixpoint group_calls (w : World) : nat :=
  match w with
  | [] => 0
  | e :: w' => (if is_group_call e then 1 else 0) + group_calls w'
  end.

(** A computation that never enters [miro_group_items], and whose results
    satisfy [P]. *)
Definition quiet {A} (P : A -> Prop) (c : M A) : Prop :=
  forall w r w', c w = (r, w') ->
                 group_calls w' = group_calls w /\ (forall a, r = Ok a -> P a).

Definition anything {A} : A -> Prop := fun _ => True.

Section Quiet.

Lemma quiet_ret {A} (P : A -> Prop) (a : A) : P a -> quiet P (ret a).
Proof. intros Ha w r w' H. inversion H; subst. split; [reflexivity|congruence]. Qed.

Lemma quiet_raise {A} (P : A -> Prop) (e : exn) : quiet P (raise e).
Proof. intros w r w' H. inversion H; subst. split; [reflexivity|discriminate]. Qed.

Lemma quiet_lift {A} (P : A -> Prop) (r : Result A) :
  (forall a, r = Ok a -> P a) -> quiet P (lift r).
Proof. intros Hr w r' w' H. inversion H; subst. split; [reflexivity|assumption]. Qed.

Lemma quiet_lift_any {A} (r : Result A) : quiet anything (lift r).
Proof. apply quiet_lift. intros; exact I. Qed.

Lemma quiet_emit (e : Event) : is_group_call e = false -> quiet anything (emit e).
Proof.
  intros He w r w' H. inversion H; subst. simpl. rewrite He.
  split; [reflexivity|intros; exact I].
Qed.

Lemma quiet_bind {A B} (P : A -> Prop) (Q : B -> Prop) (c : M A) (k : A -> M B) :
  quiet P c -> (forall a, P a -> quiet Q (k a)) -> quiet Q (bind c k).
Proof.
  intros Hc Hk w r w' H. unfold bind in H.
  destruct (c w) as [[a|e] w1] eqn:E.
  - destruct (Hc _ _ _ E) as [Hn Ha].
    destruct (Hk a (Ha a eq_refl) _ _ _ H) as [Hn' Hr]. split; [congruence|assumption].
  - inversion H; subst. destruct (Hc _ _ _ E) as [Hn _].
    split; [assumption|discriminate].
Qed.

Lemma quiet_try {A} (P : A -> Prop) (c : M A) (h : exn -> M A) :
  quiet P c -> (forall e, quiet P (h e)) -> quiet P (try_except_HTTPError c h).
Proof.
  intros Hc Hh w r w' H. unfold try_except_HTTPError in H.
  destruct (c w) as [[a|e] w1] eqn:E.
  - inversion H; subst. exact (Hc _ _ _ E).
  - destruct (Hc _ _ _ E) as [Hn _].
    destruct e; try (inversion H; subst; split; [assumption|discriminate]).
    destruct (Hh _ _ _ _ H) as [Hn' Hr]. split; [congruence|assumption].
Qed.

Lemma quiet_weaken {A} (P Q : A -> Prop) (c : M A) :
  (forall a, P a -> Q a) -> quiet P c -> quiet Q c.
Proof.
  intros HPQ Hc w r w' H. destruct (Hc _ _ _ H) as [Hn Hr].
  split; [assumption|]. intros a Ha. apply HPQ. now apply Hr.
Qed.

Lemma quiet_any {A} (P : A -> Prop) (c : M A) : quiet P c -> quiet anything c.
Proof. apply quiet_weaken. intros; exact I. Qed.

End Quiet.

(** [c ;; k] where [c] is quiet by [lem]: go on with [k]. *)
Tactic Notation "quiet_then" uconstr(lem) :=
  eapply quiet_bind; [apply lem|]; intros ? ?.
Tactic Notation "quiet_then_as" uconstr(lem) ident(x) :=
  eapply quiet_bind; [apply lem|]; intros x _.

(** The same for a trace event that is no entry into [miro_group_items]. *)
Ltac quiet_event := eapply quiet_bind; [apply quiet_emit; reflexivity|]; intros _ _.

Section Pipeline.
Variable rt : Runtime.
Variable server : Server.
Variable cfg : Config.

Lemma quiet_send (rq : Request) : quiet anything (send server rq).
Proof.
  intros w r w' H. unfold send in H.
  destruct (server w rq); inversion H; subst; (split; [reflexivity|intros; exact I]).
Qed.

Lemma quiet_session_post (url : pystr) (payload : pyval) (timeout : Z) :
  quiet anything (session_post rt server cfg url payload timeout).
Proof.
  unfold session_post. destruct (json_ok rt payload); [apply quiet_send|apply quiet_raise].
Qed.

Lemma quiet_post_attempts (left : nat) :
  forall attempt url payload tries,
    quiet anything (post_attempts rt server cfg left attempt url payload tries).
Proof.
  induction left as [|left IH]; intros attempt url payload tries; simpl.
  - apply quiet_raise.
  - quiet_then_as quiet_session_post r.
    destruct ((status_code r =? 429) && (attempt + 1 <? tries))%Z.
    + quiet_event. apply IH.
    + eapply (@quiet_bind _ _ anything).
      * apply quiet_try.
        -- unfold raise_for_status. destruct (is_error_status r);
             [apply quiet_raise|now apply quiet_ret].
        -- intros e. quiet_event. apply quiet_raise.
      * intros _ _. unfold r_json. destruct (json_body r);
          [now apply quiet_ret|apply quiet_raise].
Qed.

Lemma quiet_miro_post (url : pystr) (payload : pyval) (tries : Z) :
  quiet anything (_miro_post rt server cfg url payload tries).
Proof. apply quiet_post_attempts. Qed.

Lemma quiet_print_progress (i n : Z) (suffix : list Fragment) :
  quiet anything (print_progress rt cfg i n suffix).
Proof.
  unfold print_progress.
  quiet_then quiet_lift_any.
  apply quiet_emit. reflexivity.
Qed.

Lemma quiet_create_image board_id image_url x y width height :
  quiet anything (miro_create_image rt server cfg board_id image_url x y width height).
Proof.
  unfold miro_create_image.
  quiet_event.
  quiet_then quiet_lift_any.
  apply quiet_miro_post.
Qed.

Lemma quiet_create_shape_rect board_id x y width height fill :
  quiet anything (miro_create_shape_rect rt server cfg board_id x y width height fill).
Proof.
  unfold miro_create_shape_rect.
  quiet_event.
  quiet_then quiet_lift_any.
  apply quiet_miro_post.
Qed.

Lemma quiet_create_text board_id content x y width font_size align :
  quiet anything (miro_create_text rt server cfg board_id content x y width font_size align).
Proof.
  unfold miro_create_text.
  quiet_event.
  quiet_then quiet_lift_any.
  apply quiet_miro_post.
Qed.

(** [None] is never collected. *)
Definition no_none (ids : list pyval) : Prop :=
  filter (fun i => match i with PNone => false | _ => true end) ids = ids.

Lemma append_id_no_none (ids : list pyval) (x : pyval) :
  no_none ids -> no_none (append_id ids x).
Proof.
  unfold no_none, append_id. intros H.
  destruct x; try assumption; rewrite filter_app, H; reflexivity.
Qed.

Lemma append_id_length (ids : list pyval) (x : pyval) :
  List.length (append_id ids x)
  = (List.length ids + match x with PNone => 0 | _ => 1 end)%nat.
Proof.
  unfold append_id. destruct x; rewrite ?length_app; simpl; lia.
Qed.

Definition collected (tile : option (pyval * list pyval)) : Prop :=
  match tile with
  | Some (_, created_ids) => no_none created_ids /\ (List.length created_ids <= 3)%nat
  | None => True
  end.

Definition at_most (n : nat) (ids : list pyval) : Prop :=
  no_none ids /\ (List.length ids <= n)%nat.

Lemma at_most_append (n : nat) (ids : list pyval) (x : pyval) :
  at_most n ids -> at_most (S n) (append_id ids x).
Proof.
  intros [Hn Hl]. split; [now apply append_id_no_none|].
  rewrite append_id_length. destruct x; lia.
Qed.

Lemma at_most_keep (n : nat) (ids : list pyval) : at_most n ids -> at_most (S n) ids.
Proof. intros [Hn Hl]. split; [assumption|lia]. Qed.

Lemma quiet_place_image idx total pid img_url x y :
  quiet (fun placed => match placed with Some ids => at_most 1 ids | None => True end)
        (place_image rt server cfg idx total pid img_url x y).
Proof.
  unfold place_image. apply quiet_try.
  - quiet_then quiet_create_image.
    quiet_then quiet_lift_any.
    apply quiet_ret. apply (at_most_append (n := 0)). split; [reflexivity|simpl; lia].
  - intros e. quiet_then quiet_print_progress.
    now apply quiet_ret.
Qed.

Lemma quiet_place_overlay idx total pid x y ids n :
  at_most n ids ->
  quiet (at_most (S n)) (place_overlay rt server cfg idx total pid x y ids).
Proof.
  intros Hids. unfold place_overlay. apply quiet_try.
  - quiet_then quiet_create_shape_rect.
    quiet_then quiet_lift_any.
    apply quiet_ret. now apply at_most_append.
  - intros e. quiet_then quiet_print_progress.
    apply quiet_ret. now apply at_most_keep.
Qed.

Lemma quiet_place_text idx total pid p title x y ids n :
  at_most n ids ->
  quiet (at_most (S n)) (place_text rt server cfg idx total pid p title x y ids).
Proof.
  intros Hids. unfold place_text.
  quiet_then quiet_lift_any.
  apply quiet_try.
  - quiet_then quiet_create_text.
    quiet_then quiet_lift_any.
    apply quiet_ret. now apply at_most_append.
  - intros e. quiet_then quiet_print_progress.
    apply quiet_ret. now apply at_most_keep.
Qed.

(** Selection and the three creation steps never enter
    [miro_group_items]; they collect at most three identifiers, none of
    them [None]. *)
Lemma quiet_place_tile idx total p :
  quiet collected (place_tile rt server cfg idx total p).
Proof.
  unfold place_tile.
  quiet_then quiet_lift_any.
  quiet_then quiet_lift_any.
  quiet_then_as quiet_lift_any img_url.
  destruct (negb (truthy img_url)).
  - quiet_then quiet_print_progress.
    now apply quiet_ret.
  - eapply quiet_bind; [apply quiet_lift_any|]. intros [x_center y_center] _.
    eapply quiet_bind; [apply quiet_place_image|]. intros [ids|] Hids.
    + eapply quiet_bind; [apply (quiet_place_overlay _ _ _ _ _ Hids)|]. intros ids2 Hids2.
      eapply quiet_bind; [apply (quiet_place_text _ _ _ _ _ _ _ Hids2)|]. intros ids3 Hids3.
      apply quiet_ret. exact Hids3.
    + now apply quiet_ret.
Qed.

Lemma quiet_try_payloads (endpoint : pystr) (payloads : list pyval) :
  forall last, quiet anything (try_payloads rt server cfg endpoint payloads last).
Proof.
  induction payloads as [|p rest IH]; intros last; simpl.
  - destruct last; apply quiet_raise.
  - intros w r w' H.
    destruct (_miro_post rt server cfg endpoint p default_tries w) as [[v|e] w1] eqn:E.
    + inversion H; subst. exact (quiet_miro_post _ _ _ _ E).
    + destruct (quiet_miro_post _ _ _ _ E) as [Hn _].
      destruct e; try (inversion H; subst; split; [assumption|discriminate]).
      assert (Hq : quiet anything
                     (print [Lit (lit "   Miro error body:");
                             Val (PStr (firstn 400 (text r0)))] ;;
                      try_payloads rt server cfg endpoint rest (Some (HTTPError r0)))).
      { quiet_event. apply IH. }
      destruct (Hq _ _ _ H) as [Hn' Hr]. split; [congruence|assumption].
Qed.

(** Every call of [miro_group_items] is entered once, however it ends. *)
Lemma group_items_enters (board_id : pyval) (item_ids : list pyval) (w : World) :
  group_calls (snd (miro_group_items rt server cfg board_id item_ids w))
  = S (group_calls w).
Proof.
  unfold miro_group_items. unfold bind at 1. unfold emit.
  set (w0 := EvEnter (lit "miro_group_items") [board_id; PList item_ids] :: w).
  set (rest := endpoint <- lift (boards_url rt board_id "groups") ;;
               ids_numbers <- lift (_coerce_ids_to_numbers rt item_ids) ;;
               try_payloads rt server cfg endpoint
                 (group_payloads ids_numbers item_ids) None).
  assert (Hq : quiet anything rest).
  { quiet_then quiet_lift_any. quiet_then quiet_lift_any. apply quiet_try_payloads. }
  destruct (rest w0) as [r w'] eqn:E. destruct (Hq _ _ _ E) as [Hn _].
  simpl. rewrite Hn. reflexivity.
Qed.

(** Step 4 enters it once when at least two identifiers are at hand, and
    not at all otherwise. *)
Lemma group_tile_calls idx total pid (created_ids : list pyval) (w : World) :
  no_none created_ids ->
  group_calls (snd (group_tile rt server cfg idx total pid created_ids w))
  = (group_calls w + if (2 <=? List.length created_ids)%nat then 1 else 0)%nat.
Proof.
  intros Hnn. unfold group_tile. rewrite Hnn.
  destruct (2 <=? List.length created_ids)%nat eqn:Hlen.
  - replace (Z.of_nat (List.length created_ids) >=? 2)%Z with true
      by (symmetry; apply Z.geb_le; apply Nat.leb_le in Hlen; lia).
    unfold try_except_HTTPError, bind.
    pose proof (group_items_enters (env (MIRO_BOARD_ID cfg)) created_ids w) as Hg.
    destruct (miro_group_items rt server cfg (env (MIRO_BOARD_ID cfg)) created_ids w)
      as [[v|e] w1]; simpl in Hg.
    + simpl. lia.
    + destruct e; try (simpl; lia).
      destruct (print_progress rt cfg idx total
                  [Lit (lit "warn "); Val pid; Lit (lit " (group) -> "); Exn (HTTPError r)] w1)
        as [r' w2] eqn:E.
      destruct (quiet_print_progress _ _ _ _ E) as [Hn _]. simpl. lia.
  - replace (Z.of_nat (List.length created_ids) >=? 2)%Z with false
      by (symmetry; rewrite Z.geb_leb; apply Z.leb_gt; apply Nat.leb_gt in Hlen; lia).
    simpl. lia.
Qed.

(** C6.  In one turn of the loop over the photos, [miro_group_items] is
    entered exactly once when the creation steps have collected at least
    two identifiers, and not at all when they have collected fewer or the
    turn has ended before (no usable URL, image refused, or an exception
    that leaves the loop). *)
Theorem process_photo_groups_once (idx total : Z) (p : pyval) (w : World) :
  group_calls (snd (process_photo rt server cfg idx total p w))
  = (group_calls w
     + match fst (place_tile rt server cfg idx total p w) with
       | Ok (Some (_, created_ids)) =>
           if (2 <=? List.length created_ids)%nat then 1 else 0
       | _ => 0
       end)%nat.
Proof.
  unfold process_photo. unfold bind at 1.
  destruct (place_tile rt server cfg idx total p w) as [[tile|e] w1] eqn:Etile.
  - destruct (quiet_place_tile _ _ _ _ Etile) as [Hn Hc].
    specialize (Hc tile eq_refl).
    destruct tile as [[pid created_ids]|]; simpl.
    + destruct Hc as [Hnn _].
      pose proof (group_tile_calls idx total pid w1 Hnn) as Hg.
      unfold bind at 1.
      destruct (group_tile rt server cfg idx total pid created_ids w1) as [[[]|e] w2];
        simpl in Hg.
      * set (tail := print_progress rt cfg idx total [Lit (lit "ok "); Val pid] ;;
                     sleep (PFloat pacing) ;; ret true).
        assert (Hq : quiet anything tail).
        { quiet_then quiet_print_progress.
          quiet_event.
          now apply quiet_ret. }
        destruct (tail w2) as [r w3] eqn:E. destruct (Hq _ _ _ E) as [Hn' _].
        simpl. lia.
      * simpl. lia.
    + lia.
  - destruct (quiet_place_tile _ _ _ _ Etile) as [Hn _]. simpl. lia.
Qed.

End Pipeline.

(** A board that accepts everything: each created item gets the number of
    requests received so far as its identifier. *)
Definition accepting_board : Server :=
  fun w _ =>
    let id := PStr (str_of_int (Z.of_nat (List.length w))) in
    Answer (mkResponse 201 [] (Some (PDict [(lit "id", id)]))).

(** A board that accepts images and refuses everything else with 400. *)
Definition images_only_board : Server :=
  fun w rq =>
    match rq with
    | Post url _ _ _ =>
        if is_substring (lit "/images") url
        then Answer (mkResponse 201 [] (Some (PDict [(lit "id", PStr (lit "1"))])))
        else Answer bad_request
    | _ => NoAnswer (lit "ConnectionError")
    end.

(** Three identifiers collected: one call.  One identifier collected: none. *)
Lemma process_photo_examples :
  (fst (process_photo cpython_latin1 accepting_board example_config 1 1 (record 1) []) = Ok true
   /\ group_calls (snd (process_photo cpython_latin1 accepting_board example_config
                          1 1 (record 1) [])) = 1%nat)
  /\ (fst (process_photo cpython_latin1 images_only_board example_config 1 1 (record 1) [])
      = Ok true
      /\ group_calls (snd (process_photo cpython_latin1 images_only_board example_config
                             1 1 (record 1) [])) = 0%nat).
Proof. vm_compute. repeat split. Qed.

(* ================================================================== *)
(** * Further properties: the retry wrapper *)
(* ================================================================== *)

Definition is_request (e : Event) : bool :=
  match e with EvRequest _ => true | _ => false end.


(** How many events of a kind a piece of trace holds. *)
Definition count_events (kind : Event -> bool) (tail : World) : nat :=
  List.length (filter kind tail).

Section RetryBounds.
Variable rt : Runtime.
Variable server : Server.
Variable cfg : Config.
Variable url : pystr.
Variable payload : pyval.

(** The one request of the wrapper. *)
Definition wrapper_request : Request := Post url (session_headers cfg) payload 60.

(** [k] retries, latest first: each is a pause of two seconds and, after it,
    the request again. *)
Fixpoint retries (k : nat) : World :=
  match k with
  | O => []
  | S k' => EvRequest wrapper_request :: EvSleep (PInt 2) :: retries k'
  end.



Lemma retries_snoc (k : nat) (w : World) :
  retries k ++ EvRequest wrapper_request :: EvSleep (PInt 2) :: EvRequest wrapper_request :: w
  = retries (S k) ++ EvRequest wrapper_request :: w.
Proof.
  induction k as [|k IH]; [reflexivity|].
  change (retries (S k)) with (EvRequest wrapper_request :: EvSleep (PInt 2) :: retries k).
  simpl app. rewrite IH. reflexivity.
Qed.

Lemma retries_after (k : nat) (w : World) :
  retries k ++ EvRequest wrapper_request :: w
  = EvRequest wrapper_request :: after_retries cfg url payload k w.
Proof.
  revert w. induction k as [|k IH]; intros w; [reflexivity|].
  rewrite <- retries_snoc, IH. reflexivity.
Qed.




(** X2.  A response with an error status other than 429 ends the call at the
    first attempt: one request, no pause, at most 400 characters of the body
    printed, and the [HTTPError] of that response raised.  (For the request
    to be answered it has to go out: the payload is one the encoder
    accepts.) *)
Theorem miro_post_refused_at_once (tries : Z) (w : World) (r : Response) :
  json_ok rt payload = true ->
  (1 <= tries)%Z ->
  server w (post_request cfg url payload) = Answer r ->
  is_error_status r = true ->
  status_code r <> 429%Z ->
  _miro_post rt server cfg url payload tries w
  = (Raise (HTTPError r),
     [ EvPrint [Lit (lit "   Miro error body:"); Val (PStr (firstn 400 (text r)))];
       EvRequest (post_request cfg url payload) ] ++ w)
  /\ (List.length (firstn 400 (text r)) <= 400)%nat
  /\ (List.length (text r) <= 400 -> firstn 400 (text r) = text r)%nat.
Proof.
  intros Hjson Htries Hr Herr Hs. split; [|split].
  - unfold _miro_post. destruct (Z.to_nat tries) as [|left] eqn:E; [lia|].
    rewrite post_attempts_step, Hr by assumption.
    apply Z.eqb_neq in Hs. rewrite Hs, Herr. reflexivity.
  - apply firstn_le_length.
  - intros Hlen. now apply firstn_all2.
Qed.

End RetryBounds.

(** A board in maintenance: 503 whatever is sent. *)
Definition unavailable : Response := mkResponse 503 (lit "Service Unavailable") None.
Definition always_503 : Server := fun _ _ => Answer unavailable.



Lemma miro_post_refused_at_once_witness :
  fst (_miro_post cpython_latin1 always_503 example_config images_url image_payload 2 [])
  = Raise (HTTPError unavailable)
  /\ count_events is_request
       (snd (_miro_post cpython_latin1 always_503 example_config images_url image_payload 2 []))
     = 1%nat.
Proof.
  destruct (@miro_post_refused_at_once cpython_latin1 always_503 example_config
              images_url image_payload 2 [] unavailable) as (Hrun & _).
  - reflexivity.
  - lia.
  - reflexivity.
  - reflexivity.
  - discriminate.
  - rewrite Hrun. split; reflexivity.
Defined.

(* ================================================================== *)
(** * Further properties: the album reader *)
(* ================================================================== *)

Section ReaderTrace.
Variable rt : Runtime.
Variable server : Server.
Variables photoset_id user_id api_key : pyval.

(** The requests for [n] consecutive pages from [page] on, latest first. *)
Definition consecutive_pages (n : nat) (page : Z) : World :=
  rev (map (fun k => EvRequest (page_request photoset_id user_id api_key (page + Z.of_nat k)))
           (seq 0 n)).

Lemma page_requests_consecutive (n : nat) :
  forall page w,
    page_requests photoset_id user_id api_key n page w = consecutive_pages n page ++ w.
Proof.
  induction n as [|n IH]; intros page w; [reflexivity|].
  simpl page_requests. rewrite IH. unfold consecutive_pages.
  simpl seq. simpl map. simpl rev. rewrite <- app_assoc. simpl.
  rewrite Z.add_0_r. f_equal. f_equal.
  rewrite <- seq_shift, map_map. apply map_ext. intros k.
  do 2 f_equal. lia.
Qed.

Lemma photos_from_trace (fuel : nat) :
  forall page w out fin w',
    photos_from rt server fuel photoset_id user_id api_key page w = Some (out, fin, w') ->
    exists n, (1 <= n <= fuel)%nat
              /\ w' = page_requests photoset_id user_id api_key n page w.
Proof.
  induction fuel as [|fuel IH]; intros page w out fin w' H; simpl in H; [discriminate|].
  destruct (fetch_page server photoset_id user_id api_key page w) as [[data|e] w1] eqn:Hf;
    pose proof (fetch_page_trace _ _ _ _ _ _ Hf) as Hw1.
  - destruct (page_step rt data page) as [ps|ps|ps e].
    + inversion H; subst. exists 1%nat. split; [lia|reflexivity].
    + destruct (photos_from rt server fuel photoset_id user_id api_key (page + 1) w1)
        as [[[rest fin'] w2]|] eqn:Hrec; [|discriminate].
      inversion H; subst.
      destruct (IH _ _ _ _ _ Hrec) as (n & Hn & Hw2).
      exists (S n). split; [lia|exact Hw2].
    + inversion H; subst. exists 1%nat. split; [lia|reflexivity].
  - inversion H; subst. exists 1%nat. split; [lia|reflexivity].
Qed.


(** X4.  The reader has no bound of its own: facing a service whose every
    page carries records and reports a total beyond the page asked for, it
    goes on asking, whatever the fuel. *)
Theorem flickr_reader_trusts_total :
  (forall page w,
      exists data recs pages,
        fetch_page server photoset_id user_id api_key page w
        = (Ok data, EvRequest (page_request photoset_id user_id api_key page) :: w)
        /\ holds rt data recs pages
        /\ (page < pages)%Z) ->
  forall fuel page w,
    photos_from rt server fuel photoset_id user_id api_key page w = None.
Proof.
  intros Hmore. induction fuel as [|fuel IH]; intros page w; [reflexivity|].
  simpl. destruct (Hmore page w) as (data & recs & pages & Hf & Hh & Hlt).
  rewrite Hf, (page_step_holds _ Hh).
  replace (page >=? pages)%Z with false
    by (symmetry; rewrite Z.geb_leb; apply Z.leb_gt; lia).
  now rewrite IH.
Qed.

End ReaderTrace.


(** A listing service that always reports one page more than the one asked
    for. *)
Definition endless_album : Server :=
  fun _ rq =>
    match rq with
    | Get _ (PDict params) _ =>
        match dict_lookup params (lit "page") with
        | Some (PInt page) =>
            Answer (mkResponse 200 [] (Some (album_page [record 1] page (page + 1))))
        | _ => NoAnswer (lit "ConnectionError")
        end
    | _ => NoAnswer (lit "ConnectionError")
    end.

Lemma flickr_reader_trusts_total_witness :
  flickr_photos_in_photoset cpython_latin1 endless_album 1000
    (PStr (lit "7215")) (PStr (lit "u")) (PStr (lit "key")) []
  = None.
Proof.
  apply (@flickr_reader_trusts_total cpython_latin1 endless_album
           (PStr (lit "7215")) (PStr (lit "u")) (PStr (lit "key"))).
  intros page w.
  exists (album_page [record 1] page (page + 1)), [record 1], (page + 1)%Z.
  split; [reflexivity|]. split; [|lia].
  eapply holds_album; reflexivity.
Defined.

(* ================================================================== *)
(** * Further properties: identifier coercion *)
(* ================================================================== *)

Section CoercionMore.
Variable rt : Runtime.

(** No string of digits is left in a list. *)
Definition digit_free (ids : list pyval) : Prop :=
  forall s, In (PStr s) ids -> isdigit rt s = false.

Lemma coerce_id_settled (id x : pyval) :
  coerce_id rt id = Ok x ->
  coerce_id rt x = Ok x /\ (forall s, x = PStr s -> isdigit rt s = false).
Proof.
  destruct id; simpl; intros H; try (inversion H; subst; split; [reflexivity|discriminate]).
  destruct (isdigit rt s) eqn:Hd.
  - destruct (int_of_str rt s) as [z|e]; simpl in H; [|discriminate].
    inversion H; subst. split; [reflexivity|discriminate].
  - inversion H; subst. split; [simpl; now rewrite Hd|].
    intros s' Hs'. now inversion Hs'; subst.
Qed.

(** X5.  What the coercion returns is settled: no string of digits is left
    in it, and coercing it again returns it unchanged. *)
Theorem coerce_ids_idempotent (ids out : list pyval) :
  _coerce_ids_to_numbers rt ids = Ok out ->
  _coerce_ids_to_numbers rt out = Ok out /\ digit_free out.
Proof.
  intros H. apply coerce_ids_elementwise in H.
  induction H as [|id x ids out Hx _ [IH1 IH2]]; [split; [reflexivity|intros s []]|].
  destruct (coerce_id_settled _ Hx) as [Hxx Hfree].
  split.
  - simpl. now rewrite Hxx, IH1.
  - intros s [Hs|Hs]; [now apply Hfree|now apply IH2].
Qed.

(** ** The decimal rendering of a natural number and back *)

Lemma ascii_digit_read (d : Z) :
  (0 <= d < 10)%Z ->
  (Z.to_N (48 + d) =? 95)%N = false
  /\ int_digit rt (Z.to_N (48 + d)) = Some d
  /\ (48 <= Z.to_N (48 + d) <= 57)%N.
Proof.
  intros Hd.
  assert (Hc : exists k, d = Z.of_nat k /\ (k < 10)%nat)
    by (exists (Z.to_nat d); lia).
  destruct Hc as (k & -> & Hk).
  do 10 (destruct k as [|k]; [repeat split; try reflexivity; cbv; discriminate|]).
  lia.
Qed.

Lemma read_digits_digit (c : N) (d : Z) (st : digit_state) (a : Z) (n : N) (rest : pystr) :
  (c =? 95)%N = false ->
  int_digit rt c = Some d ->
  read_digits rt st a n (c :: rest) = read_digits rt AfterDigit (10 * a + d)%Z (n + 1)%N rest.
Proof. intros H95 Hd. simpl. now rewrite H95, Hd. Qed.

(** The digits [pos_digits] writes, read back by [read_digits]: the value
    they stand for is appended to what was read before. *)
Lemma pos_digits_read (fuel : nat) :
  forall z,
    (0 <= z < 2 ^ Z.of_nat (S fuel))%Z ->
    exists ds,
      (forall acc, pos_digits (S fuel) z acc = ds ++ acc)
      /\ ds <> []
      /\ Forall (fun c => (48 <= c <= 57)%N) ds
      /\ (forall st a n rest,
             read_digits rt st a n (ds ++ rest)
             = read_digits rt AfterDigit (a * 10 ^ Z.of_nat (List.length ds) + z)%Z
                           (n + N.of_nat (List.length ds))%N rest).
Proof.
  induction fuel as [|fuel IH]; intros z Hz.
  - assert (Hz10 : (z <? 10)%Z = true) by (apply Z.ltb_lt; simpl in Hz; lia).
    destruct (@ascii_digit_read (z mod 10)) as (H95 & Hdig & Hrange);
      [apply Z.mod_pos_bound; lia|].
    exists [Z.to_N (48 + z mod 10)]. repeat split.
    + intros acc. simpl. now rewrite Hz10.
    + discriminate.
    + repeat constructor; apply Hrange.
    + intros st a n rest. simpl app.
      rewrite (@read_digits_digit _ _ _ _ _ _ H95 Hdig).
      rewrite Z.mod_small by (apply Z.ltb_lt in Hz10; lia).
      simpl List.length. change (Z.of_nat 1) with 1%Z. change (N.of_nat 1) with 1%N.
      rewrite Z.pow_1_r. f_equal; lia.
  - destruct (@ascii_digit_read (z mod 10)) as (H95 & Hdig & Hrange);
      [apply Z.mod_pos_bound; lia|].
    destruct (z <? 10)%Z eqn:Hz10.
    + exists [Z.to_N (48 + z mod 10)]. repeat split.
      * intros acc. simpl. now rewrite Hz10.
      * discriminate.
      * repeat constructor; apply Hrange.
      * intros st a n rest. simpl app.
        rewrite (@read_digits_digit _ _ _ _ _ _ H95 Hdig).
        rewrite Z.mod_small by (apply Z.ltb_lt in Hz10; lia).
        simpl List.length. change (Z.of_nat 1) with 1%Z. change (N.of_nat 1) with 1%N.
        rewrite Z.pow_1_r. f_equal; lia.
    + apply Z.ltb_ge in Hz10.
      assert (Hq : (0 <= z / 10 < 2 ^ Z.of_nat (S fuel))%Z).
      { split; [apply Z.div_pos; lia|].
        apply Z.div_lt_upper_bound; [lia|].
        replace (Z.of_nat (S (S fuel))) with (Z.of_nat (S fuel) + 1)%Z in Hz by lia.
        rewrite Z.pow_add_r in Hz by lia. lia. }
      destruct (IH _ Hq) as (ds & Hds & Hne & Hall & Hread).
      exists (ds ++ [Z.to_N (48 + z mod 10)]). repeat split.
      * intros acc. change (pos_digits (S (S fuel)) z acc)
          with (let acc' := Z.to_N (48 + z mod 10) :: acc in
                if (z <? 10)%Z then acc' else pos_digits (S fuel) (z / 10) acc').
        cbv zeta. replace (z <? 10)%Z with false by (symmetry; apply Z.ltb_ge; lia).
        rewrite Hds, <- app_assoc. reflexivity.
      * intros E. now apply app_eq_nil in E as [_ E].
      * apply Forall_app. split; [assumption|repeat constructor; apply Hrange].
      * intros st a n rest. rewrite <- app_assoc, Hread. simpl app.
        rewrite (@read_digits_digit _ _ _ _ _ _ H95 Hdig).
        rewrite length_app. simpl List.length.
        f_equal.
        -- rewrite Nat2Z.inj_add, Z.pow_add_r by lia.
           change (Z.of_nat 1) with 1%Z. rewrite Z.pow_1_r.
           pose proof (Z.div_mod z 10 ltac:(lia)). lia.
        -- lia.
Qed.

Lemma drop_blanks_digit (c : N) (s : pystr) :
  (48 <= c <= 57)%N -> drop_blanks rt (c :: s) = c :: s.
Proof.
  intros Hc. simpl. unfold int_blank, ascii_blank.
  replace (c <? 127)%N with true by (symmetry; apply N.ltb_lt; lia).
  replace (c <=? 13)%N with false by (symmetry; apply N.leb_gt; lia).
  replace (c =? 32)%N with false by (symmetry; apply N.eqb_neq; lia).
  now rewrite andb_false_r.
Qed.

(** X6.  Coercion undoes the decimal rendering of a natural number: the
    string [str(z)] of a non-negative integer, alone in a list (as an
    identifier the board has given), comes back as the integer [z].  The
    runtime has to count the ASCII digits among its digits, and its limit on
    the length of a number has to admit the string. *)
Theorem coerce_ids_str_of_int (z : Z) :
  (0 <= z)%Z ->
  (forall c, (48 <= c <= 57)%N -> ucd_isdigit rt c = true) ->
  (int_max_str_digits rt = 0%N
   \/ (N.of_nat (List.length (str_of_int z)) <= int_max_str_digits rt)%N) ->
  isdigit rt (str_of_int z) = true
  /\ int_of_str rt (str_of_int z) = Ok z
  /\ _coerce_ids_to_numbers rt [PStr (str_of_int z)] = Ok [PInt z].
Proof.
  intros Hz Hdigits Hlimit.
  assert (Hb : (0 <= z < 2 ^ Z.of_nat (S (Z.to_nat (Z.log2 z))))%Z).
  { split; [assumption|].
    destruct (Z.eq_dec z 0) as [->|Hnz]; [simpl; lia|].
    rewrite Nat2Z.inj_succ, Z2Nat.id by apply Z.log2_nonneg.
    apply Z.log2_spec. lia. }
  destruct (pos_digits_read _ Hb) as (ds & Hds & Hne & Hall & Hread).
  assert (Hstr : str_of_int z = ds).
  { unfold str_of_int. replace (z <? 0)%Z with false by (symmetry; apply Z.ltb_ge; lia).
    rewrite Hds. apply app_nil_r. }
  rewrite Hstr in *.
  assert (Hisd : isdigit rt ds = true).
  { unfold isdigit. apply andb_true_intro. split.
    - destruct ds; [contradiction|reflexivity].
    - apply forallb_forall. intros c Hc. apply Hdigits.
      rewrite Forall_forall in Hall. now apply Hall. }
  assert (Hint : int_of_str rt ds = Ok z).
  { unfold int_of_str.
    assert (Hbody : rev (drop_blanks rt (rev (drop_blanks rt ds))) = ds).
    { destruct ds as [|c ds']; [contradiction|].
      rewrite drop_blanks_digit by (inversion Hall; assumption).
      destruct (rev (c :: ds')) as [|c' r] eqn:Hrev.
      - apply (f_equal (@List.length N)) in Hrev. rewrite length_rev in Hrev. discriminate.
      - assert (Hc' : (48 <= c' <= 57)%N).
        { rewrite Forall_forall in Hall. apply Hall. apply in_rev.
          rewrite Hrev. now left. }
        rewrite drop_blanks_digit by assumption.
        rewrite <- Hrev. apply rev_involutive. }
    rewrite Hbody.
    assert (Hsign : (let '(neg, digits) :=
                       match ds with
                       | 43%N :: r => (false, r)
                       | 45%N :: r => (true, r)
                       | _ => (false, ds)
                       end in (neg, digits)) = (false, ds)).
    { destruct ds as [|c ds']; [reflexivity|].
      assert (Hc : (48 <= c <= 57)%N) by (inversion Hall; assumption).
      destruct c as [|p]; [reflexivity|].
      do 6 (destruct p as [p|p|]; try reflexivity); lia. }
    destruct (match ds with
              | 43%N :: r => (false, r)
              | 45%N :: r => (true, r)
              | _ => (false, ds)
              end) as [neg digits].
    injection Hsign as -> ->.
    rewrite <- (app_nil_r ds) at 1. rewrite Hread. simpl read_digits.
    cbv iota beta.
    destruct Hlimit as [H0|Hle].
    - rewrite H0. reflexivity.
    - replace (int_max_str_digits rt <? N.of_nat (List.length ds))%N with false
        by (symmetry; apply N.ltb_ge; assumption).
      now rewrite andb_false_r. }
  repeat split; try assumption.
  simpl. rewrite Hisd, Hint. reflexivity.
Qed.

End CoercionMore.

Lemma coerce_ids_idempotent_witness :
  _coerce_ids_to_numbers cpython_latin1 [PInt 123; PStr (lit "abc"); PStr (lit "45x")]
  = Ok [PInt 123; PStr (lit "abc"); PStr (lit "45x")].
Proof.
  apply (@coerce_ids_idempotent cpython_latin1
           [PStr (lit "123"); PStr (lit "abc"); PStr (lit "45x")]).
  reflexivity.
Defined.

Lemma coerce_ids_str_of_int_witness :
  _coerce_ids_to_numbers cpython_latin1 [PStr (str_of_int 3458764517517819001)]
  = Ok [PInt 3458764517517819001].
Proof.
  apply (@coerce_ids_str_of_int cpython_latin1 3458764517517819001).
  - lia.
  - intros c Hc. simpl.
    replace (48 <=? c)%N with true by (symmetry; apply N.leb_le; lia).
    replace (c <=? 57)%N with true by (symmetry; apply N.leb_le; lia).
    reflexivity.
  - right. vm_compute. discriminate.
Defined.

(* ================================================================== *)
(** * Further properties: the requests of the board client *)
(* ================================================================== *)

Section BoardRequests.
Variable rt : Runtime.
Variable server : Server.
Variable cfg : Config.










End BoardRequests.

(** A coordinate that is not a number: the image call raises before
    anything is sent, whatever the board would answer. *)
Lemma miro_create_image_nan_refused :
  miro_create_image cpython_latin1 accepting_board example_config (PStr (lit "board"))
    (PStr (lit "https://live.example/c.jpg")) PrimFloat.nan 0%float (PFloat 416%float) PNone []
  = (Raise (RequestException (lit "InvalidJSONError")),
     [ EvEnter (lit "miro_create_image")
               [PStr (lit "board"); PStr (lit "https://live.example/c.jpg")] ]).
Proof. reflexivity. Qed.

(* ================================================================== *)
(** * Further properties: which errors leave the loop *)
(* ================================================================== *)

(** A result that is no [HTTPError]. *)
Definition http_free {A} (r : Result A) : Prop :=
  forall resp, r <> Raise (HTTPError resp).

(** A computation out of which no [HTTPError] comes. *)
Definition catches {A} (c : M A) : Prop := forall w, http_free (fst (c w)).

Section HttpFree.

Lemma http_free_ok {A} (a : A) : http_free (Ok a).
Proof. intros resp. discriminate. Qed.

Lemma http_free_rbind {A B} (r : Result A) (k : A -> Result B) :
  http_free r -> (forall a, http_free (k a)) -> http_free (rbind r k).
Proof.
  intros Hr Hk. destruct r as [a|e]; simpl; [apply Hk|].
  intros resp H. injection H as ->. now apply (Hr resp).
Qed.

Lemma http_free_py_get (v : pyval) (k : pystr) (default : pyval) :
  http_free (py_get v k default).
Proof. destruct v; intros resp; discriminate. Qed.

Lemma http_free_py_getitem (v : pyval) (k : pystr) : http_free (py_getitem v k).
Proof.
  destruct v; intros resp; try discriminate.
  simpl. destruct (dict_lookup d k); discriminate.
Qed.

Lemma http_free_py_contains (v : pyval) (k : pystr) : http_free (py_contains v k).
Proof. destruct v; intros resp; discriminate. Qed.

Lemma http_free_first_present (keys : list pystr) (p : pyval) :
  http_free (first_present keys p).
Proof.
  induction keys as [|key keys IH]; simpl; [apply http_free_ok|].
  apply http_free_rbind; [apply http_free_py_contains|].
  intros [|]; [apply http_free_py_getitem|exact IH].
Qed.

Lemma http_free_pick_best (p : pyval) : http_free (pick_best_image_url p).
Proof.
  unfold pick_best_image_url.
  apply http_free_rbind; [apply http_free_py_get|]. intros media.
  destruct (eq_str media (lit "video")); [apply http_free_ok|apply http_free_first_present].
Qed.

Lemma http_free_round (m e : Z) : http_free (round_to_float m e).
Proof.
  unfold round_to_float. destruct (binary_normalize prec emax m e false);
    intros resp; discriminate.
Qed.

Lemma http_free_truediv (a b : Z) : http_free (int_truediv a b).
Proof.
  unfold int_truediv. destruct (b =? 0)%Z; [intros resp; discriminate|].
  cbv zeta. destruct (Z.abs a =? 0)%Z; [apply http_free_ok|apply http_free_round].
Qed.

Lemma http_free_int_of_float (f : float) : http_free (int_of_float f).
Proof. unfold int_of_float. destruct (Prim2SF f); intros resp; discriminate. Qed.

Lemma http_free_tile_center (cfg : Config) (idx : Z) : http_free (tile_center cfg idx).
Proof.
  unfold tile_center, tile_col, tile_row, pymod, floordiv.
  destruct (IMAGES_PER_ROW cfg =? 0)%Z; [intros resp; discriminate|]. simpl.
  apply http_free_rbind; [apply http_free_round|]. intros colf.
  apply http_free_rbind; [apply http_free_round|]. intros rowf.
  apply http_free_ok.
Qed.

Lemma http_free_str_repeat (c : pystr) (n : Z) : http_free (str_repeat c n).
Proof.
  unfold str_repeat.
  destruct ((n <? - PY_SSIZE_T_MAX - 1)%Z || (PY_SSIZE_T_MAX <? n)%Z);
    [intros resp; discriminate|].
  destruct (n <? 1)%Z; [apply http_free_ok|].
  destruct (PY_SSIZE_T_MAX / n <? Z.of_nat (List.length c))%Z;
    [intros resp; discriminate|apply http_free_ok].
Qed.

Lemma http_free_int_to_str (rt : Runtime) (z : Z) : http_free (int_to_str rt z).
Proof.
  unfold int_to_str.
  destruct (negb (int_max_str_digits rt =? 0)%N && (int_max_str_digits rt <? int_digits z)%N);
    [intros resp; discriminate|apply http_free_ok].
Qed.

Lemma http_free_fstr (rt : Runtime) (v : pyval) : http_free (fstr rt v).
Proof.
  destruct v as [|[|]|z|f|s|l|d]; simpl; try apply http_free_ok;
    try apply http_free_int_to_str;
    destruct (format_value rt _); intros resp; discriminate.
Qed.

Lemma http_free_progress_bar (rt : Runtime) (i n width : Z) :
  http_free (progress_bar rt i n width).
Proof.
  unfold progress_bar. apply http_free_rbind.
  - destruct (n =? 0)%Z; [apply http_free_ok|].
    apply http_free_rbind; [apply http_free_truediv|]. intros ratio.
    apply http_free_rbind; [apply http_free_round|]. intros wf.
    apply http_free_int_of_float.
  - intros filled.
    apply http_free_rbind; [apply http_free_str_repeat|]. intros hashes.
    apply http_free_rbind; [apply http_free_str_repeat|]. intros dashes.
    apply http_free_rbind; [apply http_free_int_to_str|]. intros i_.
    apply http_free_rbind; [apply http_free_int_to_str|]. intros n_.
    apply http_free_ok.
Qed.

Lemma http_free_page_url (rt : Runtime) (p fallback : pyval) :
  http_free (build_flickr_page_url rt p fallback).
Proof.
  unfold build_flickr_page_url.
  apply http_free_rbind; [apply http_free_py_get|]. intros alias.
  apply http_free_rbind; [apply http_free_fstr|]. intros user_.
  apply http_free_rbind; [apply http_free_py_getitem|]. intros id.
  apply http_free_rbind; [apply http_free_fstr|]. intros id_.
  apply http_free_ok.
Qed.

Lemma catches_ret {A} (a : A) : catches (ret a).
Proof. intros w resp. discriminate. Qed.

Lemma catches_lift {A} (r : Result A) : http_free r -> catches (lift r).
Proof. intros Hr w. exact Hr. Qed.

Lemma catches_emit (e : Event) : catches (emit e).
Proof. intros w resp. discriminate. Qed.

Lemma catches_bind {A B} (c : M A) (k : A -> M B) :
  catches c -> (forall a, catches (k a)) -> catches (bind c k).
Proof.
  intros Hc Hk w. unfold bind. specialize (Hc w).
  destruct (c w) as [[a|e] w1]; [apply Hk|].
  intros resp H. simpl in H. injection H as ->. now apply (Hc resp).
Qed.

(** The handler is all that counts: whatever the guarded block does, its
    [HTTPError] goes to the handler. *)
Lemma catches_try {A} (c : M A) (h : exn -> M A) :
  (forall e, catches (h e)) -> catches (try_except_HTTPError c h).
Proof.
  intros Hh w. unfold try_except_HTTPError.
  destruct (c w) as [[a|e] w1]; [apply http_free_ok|].
  destruct e; try (intros resp; discriminate). apply Hh.
Qed.

End HttpFree.

Section Escapes.
Variable rt : Runtime.
Variable server : Server.
Variable cfg : Config.

Lemma catches_print_progress (i n : Z) (suffix : list Fragment) :
  catches (print_progress rt cfg i n suffix).
Proof.
  unfold print_progress. apply catches_bind.
  - apply catches_lift, http_free_progress_bar.
  - intros bar. apply catches_emit.
Qed.

Lemma catches_place_tile (idx total : Z) (p : pyval) :
  catches (place_tile rt server cfg idx total p).
Proof.
  unfold place_tile.
  apply catches_bind; [apply catches_lift, http_free_py_get|]. intros pid.
  apply catches_bind.
  { apply catches_lift, http_free_rbind; [apply http_free_py_get|]. intros t.
    destruct (py_or t (PStr [])); intros resp; discriminate. }
  intros title.
  apply catches_bind; [apply catches_lift, http_free_pick_best|]. intros img_url.
  destruct (negb (truthy img_url)).
  - apply catches_bind; [apply catches_print_progress|]. intros _. apply catches_ret.
  - apply catches_bind; [apply catches_lift, http_free_tile_center|].
    intros [x_center y_center].
    apply catches_bind.
    { unfold place_image. apply catches_try. intros e.
      apply catches_bind; [apply catches_print_progress|]. intros _. apply catches_ret. }
    intros [created_ids|]; [|apply catches_ret].
    apply catches_bind.
    { unfold place_overlay. apply catches_try. intros e.
      apply catches_bind; [apply catches_print_progress|]. intros _. apply catches_ret. }
    intros ids2.
    apply catches_bind; [|intros ids3; apply catches_ret].
    unfold place_text.
    apply catches_bind; [apply catches_lift, http_free_page_url|]. intros page.
    apply catches_try. intros e.
    apply catches_bind; [apply catches_print_progress|]. intros _. apply catches_ret.
Qed.

Lemma catches_process_photo (idx total : Z) (p : pyval) :
  catches (process_photo rt server cfg idx total p).
Proof.
  unfold process_photo.
  apply catches_bind; [apply catches_place_tile|].
  intros [[pid created_ids]|]; [|apply catches_ret].
  apply catches_bind.
  { unfold group_tile.
    destruct (Z.of_nat (List.length
                (filter (fun i => match i with PNone => false | _ => true end) created_ids))
              >=? 2)%Z; [|apply catches_ret].
    apply catches_try. intros e. apply catches_print_progress. }
  intros _.
  apply catches_bind; [apply catches_print_progress|]. intros _.
  apply catches_bind; [apply catches_emit|]. intros _. apply catches_ret.
Qed.

Lemma catches_photo_loop (photos : list pyval) :
  forall idx total done, catches (photo_loop rt server cfg idx total photos done).
Proof.
  induction photos as [|p rest IH]; intros idx total done; simpl.
  - apply catches_ret.
  - apply catches_bind; [apply catches_process_photo|]. intros placed. apply IH.
Qed.

(** X8.  No [HTTPError] leaves a turn of the loop over the photos: whatever
    the board answers to the image, the banner, the label and the group,
    the turn ends normally or with an exception of another class. *)
Theorem process_photo_catches_http (idx total : Z) (p : pyval) (w : World) (resp : Response) :
  fst (process_photo rt server cfg idx total p w) <> Raise (HTTPError resp).
Proof. apply catches_process_photo. Qed.

(** The counter of placed tiles grows by at most one a photo. *)
Lemma photo_loop_done (photos : list pyval) :
  forall idx total done w done' w',
    photo_loop rt server cfg idx total photos done w = (Ok done', w') ->
    (done <= done' <= done + Z.of_nat (List.length photos))%Z.
Proof.
  induction photos as [|p rest IH]; intros idx total done w done' w' H; simpl in H.
  - inversion H; subst. simpl. lia.
  - unfold bind in H.
    destruct (process_photo rt server cfg idx total p w) as [[placed|e] w1]; [|discriminate].
    apply IH in H. simpl List.length. destruct placed; lia.
Qed.

(** X9.  The summary never counts more tiles than photos: when the loop over
    [photos] returns, its count of placed tiles lies between zero and the
    number of photos. *)
Theorem photo_loop_counts (total : Z) (photos : list pyval) (w : World)
        (done : Z) (w' : World) :
  photo_loop rt server cfg 1 total photos 0 w = (Ok done, w') ->
  (0 <= done <= Z.of_nat (List.length photos))%Z.
Proof. intros H. apply photo_loop_done in H. lia. Qed.

(** X10.  An [HTTPError] that ends [main] comes from the album listing: the
    trace then holds nothing but the requests for consecutive album pages, so
    no request has reached the board and nothing has been printed. *)
Theorem main_http_error_from_listing (fuel : nat) (w w' : World) (resp : Response) :
  main rt server cfg fuel w = Some (Raise (HTTPError resp), w') ->
  exists n,
    (1 <= n <= fuel)%nat
    /\ w' = consecutive_pages (env (FLICKR_PHOTOSETID cfg)) (env (FLICKR_USER_ID cfg))
                              (env (FLICKR_API_KEY cfg)) n 1 ++ w.
Proof.
  unfold main. destruct (negb (Nat.eqb (List.length (missing cfg)) 0)); [discriminate|].
  unfold list_of_photos.
  destruct (flickr_photos_in_photoset rt server fuel (env (FLICKR_PHOTOSETID cfg))
              (env (FLICKR_USER_ID cfg)) (env (FLICKR_API_KEY cfg)) w)
    as [[[ps fin] w1]|] eqn:Hread; [|discriminate].
  destruct fin as [|e].
  - destruct (Z.of_nat (List.length ps) =? 0)%Z; [discriminate|].
    intros H. exfalso.
    set (run := print [Lit (lit "Found "); Val (PInt (Z.of_nat (List.length ps)));
                       Lit (lit " photos. Uploading to Miro board ");
                       Val (env (MIRO_BOARD_ID cfg)); Lit [8230%N]] ;;
                done <- photo_loop rt server cfg 1 (Z.of_nat (List.length ps)) ps 0 ;;
                print [Lit (lit "Done. Placed "); Val (PInt done); Lit (lit "/");
                       Val (PInt (Z.of_nat (List.length ps))); Lit (lit " grouped tiles.")]) in H.
    assert (Hc : catches run).
    { apply catches_bind; [apply catches_emit|]. intros _.
      apply catches_bind; [apply catches_photo_loop|]. intros done. apply catches_emit. }
    apply (Hc w1 resp). inversion H. destruct (run w1); simpl in *. congruence.
  - intros H. inversion H; subst.
    unfold flickr_photos_in_photoset in Hread.
    apply photos_from_trace in Hread. destruct Hread as (n & Hn & Hw').
    exists n. split; [assumption|]. now rewrite <- page_requests_consecutive.
Qed.

End Escapes.

(** A listing service that is down. *)
Definition listing_down : Server :=
  fun _ _ => Answer (mkResponse 500 (lit "Internal Server Error") None).

Lemma photo_loop_counts_witness :
  (0 <= 2 <= Z.of_nat (List.length [record 1; record 2]))%Z.
Proof.
  apply (@photo_loop_counts cpython_latin1 accepting_board example_config 2
           [record 1; record 2] [] 2
           (snd (photo_loop cpython_latin1 accepting_board example_config 1 2
                   [record 1; record 2] 0 []))).
  vm_compute. reflexivity.
Defined.

Lemma main_http_error_from_listing_witness :
  exists n,
    (1 <= n <= 3)%nat
    /\ [ EvRequest (page_request (PStr (lit "7215")) (PStr (lit "12345678@N00"))
                                 (PStr (lit "key")) 1) ]
       = consecutive_pages (env (FLICKR_PHOTOSETID example_config))
                           (env (FLICKR_USER_ID example_config))
                           (env (FLICKR_API_KEY example_config)) n 1 ++ [].
Proof.
  apply (@main_http_error_from_listing cpython_latin1 listing_down example_config 3 []
           [ EvRequest (page_request (PStr (lit "7215")) (PStr (lit "12345678@N00"))
                                     (PStr (lit "key")) 1) ]
           (mkResponse 500 (lit "Internal Server Error") None)).
  reflexivity.
Defined.

(* ================================================================== *)
(** * Further properties: the order of the board calls *)
(* ================================================================== *)

(** The board-client functions entered on a piece of trace, first one
    first. *)
Fixpoint entries (tail : World) : list pystr :=
  match tail with
  | [] => []
  | EvEnter fn _ :: tail' => entries tail' ++ [fn]
  | _ :: tail' => entries tail'
  end.

(** What a computation adds to the trace, as far as entries go, together
    with its result. *)
Definition trail {A} (Q : Result A -> list pystr -> Prop) (c : M A) : Prop :=
  forall w, exists tail, snd (c w) = tail ++ w /\ Q (fst (c w)) (entries tail).

(** A computation that enters no board-client function. *)
Definition silent {A} (c : M A) : Prop := trail (fun _ l => l = []) c.

Section Trail.

Lemma entries_app (t2 t1 : World) : entries (t2 ++ t1) = entries t1 ++ entries t2.
Proof.
  induction t2 as [|e t2 IH]; simpl; [now rewrite app_nil_r|].
  destruct e; try exact IH. now rewrite IH, app_assoc.
Qed.

Lemma trail_ret {A} (Q : Result A -> list pystr -> Prop) (a : A) :
  Q (Ok a) [] -> trail Q (ret a).
Proof. intros H w. now exists []. Qed.

Lemma trail_lift {A} (Q : Result A -> list pystr -> Prop) (r : Result A) :
  Q r [] -> trail Q (lift r).
Proof. intros H w. now exists []. Qed.

Lemma trail_event (Q : Result unit -> list pystr -> Prop) (e : Event) :
  Q (Ok tt) (entries [e]) -> trail Q (emit e).
Proof. intros H w. now exists [e]. Qed.

Lemma trail_bind {A B} (Q1 : Result A -> list pystr -> Prop)
      (Q : Result B -> list pystr -> Prop) (c : M A) (k : A -> M B) :
  trail Q1 c ->
  (forall a l1, Q1 (Ok a) l1 -> trail (fun r l2 => Q r (l1 ++ l2)) (k a)) ->
  (forall e l, Q1 (Raise e) l -> Q (Raise e) l) ->
  trail Q (bind c k).
Proof.
  intros Hc Hk He w. unfold bind.
  destruct (Hc w) as (t1 & Hw1 & HQ1).
  destruct (c w) as [[a|e] w1]; simpl in Hw1, HQ1; subst w1.
  - destruct (Hk a _ HQ1 (t1 ++ w)) as (t2 & Hw2 & HQ2).
    exists (t2 ++ t1). rewrite Hw2, entries_app, app_assoc. split; [reflexivity|exact HQ2].
  - exists t1. split; [reflexivity|]. now apply He.
Qed.

Lemma trail_try {A} (Q1 Q : Result A -> list pystr -> Prop) (c : M A) (h : exn -> M A) :
  trail Q1 c ->
  (forall a l, Q1 (Ok a) l -> Q (Ok a) l) ->
  (forall e l, is_HTTPError e = false -> Q1 (Raise e) l -> Q (Raise e) l) ->
  (forall resp l1, Q1 (Raise (HTTPError resp)) l1 ->
                   trail (fun r l2 => Q r (l1 ++ l2)) (h (HTTPError resp))) ->
  trail Q (try_except_HTTPError c h).
Proof.
  intros Hc Hok Hother Hhttp w. unfold try_except_HTTPError.
  destruct (Hc w) as (t1 & Hw1 & HQ1).
  destruct (c w) as [[a|e] w1]; simpl in Hw1, HQ1; subst w1.
  - exists t1. split; [reflexivity|]. now apply Hok.
  - destruct e; try (exists t1; split; [reflexivity|]; now apply Hother).
    destruct (Hhttp _ _ HQ1 (t1 ++ w)) as (t2 & Hw2 & HQ2).
    exists (t2 ++ t1). rewrite Hw2, entries_app, app_assoc. split; [reflexivity|exact HQ2].
Qed.

Lemma trail_weaken {A} (Q1 Q : Result A -> list pystr -> Prop) (c : M A) :
  (forall r l, Q1 r l -> Q r l) -> trail Q1 c -> trail Q c.
Proof.
  intros HQ Hc w. destruct (Hc w) as (t & Hw & H1). exists t. split; [assumption|now apply HQ].
Qed.

(** Entering a function and going on silently leaves that one entry. *)
Lemma trail_enter {A} (fn : pystr) (args : list pyval) (c : M A) :
  silent c -> trail (fun _ l => l = [fn]) (emit (EvEnter fn args) ;; c).
Proof.
  intros Hc. eapply trail_bind with (Q1 := fun r l => l = [fn]).
  - apply trail_event. reflexivity.
  - intros [] l1 ->. eapply trail_weaken; [|exact Hc].
    intros r l ->. reflexivity.
  - intros e l H. exact H.
Qed.

End Trail.

Section CallOrder.
Variable rt : Runtime.
Variable server : Server.
Variable cfg : Config.

Definition image_call : pystr := lit "miro_create_image".
Definition rect_call : pystr := lit "miro_create_shape_rect".
Definition text_call : pystr := lit "miro_create_text".
Definition group_call : pystr := lit "miro_group_items".

Lemma silent_bind {A B} (c : M A) (k : A -> M B) :
  silent c -> (forall a, silent (k a)) -> silent (bind c k).
Proof.
  intros Hc Hk. eapply trail_bind; [exact Hc| |intros e l H; exact H].
  intros a l1 ->. apply Hk.
Qed.

Lemma silent_ret {A} (a : A) : silent (ret a).
Proof. now apply trail_ret. Qed.

Lemma silent_lift {A} (r : Result A) : silent (lift r).
Proof. now apply trail_lift. Qed.

Lemma silent_raise {A} (e : exn) : silent (@raise A e).
Proof. intros w. now exists []. Qed.

(** Entries [L] whatever the result, then silence: still [L]. *)
Lemma trail_then_silent {A B} (L : list pystr) (c : M A) (k : A -> M B) :
  trail (fun _ l => l = L) c -> (forall a, silent (k a)) ->
  trail (fun _ l => l = L) (bind c k).
Proof.
  intros Hc Hk. eapply trail_bind; [exact Hc| |intros e l H; exact H].
  intros a l1 ->. eapply trail_weaken; [|apply Hk].
  intros r l ->. apply app_nil_r.
Qed.

Lemma trail_try_silent {A} (L : list pystr) (c : M A) (h : exn -> M A) :
  trail (fun _ l => l = L) c -> (forall e, silent (h e)) ->
  trail (fun _ l => l = L) (try_except_HTTPError c h).
Proof.
  intros Hc Hh. eapply trail_try; [exact Hc| | |].
  - intros a l H; exact H.
  - intros e l _ H; exact H.
  - intros resp l1 ->. eapply trail_weaken; [|apply Hh].
    intros r l ->. apply app_nil_r.
Qed.

Lemma silent_try {A} (c : M A) (h : exn -> M A) :
  silent c -> (forall e, silent (h e)) -> silent (try_except_HTTPError c h).
Proof. apply trail_try_silent. Qed.

Lemma silent_session_post (url : pystr) (payload : pyval) (timeout : Z) :
  silent (session_post rt server cfg url payload timeout).
Proof.
  unfold session_post. destruct (json_ok rt payload); [|apply silent_raise].
  intros w. unfold send.
  destruct (server w (Post url (session_headers cfg) payload timeout));
    now exists [EvRequest (Post url (session_headers cfg) payload timeout)].
Qed.

Lemma silent_post_attempts (left : nat) :
  forall attempt url payload tries,
    silent (post_attempts rt server cfg left attempt url payload tries).
Proof.
  induction left as [|left IH]; intros attempt url payload tries; cbn [post_attempts].
  - apply silent_raise.
  - apply silent_bind; [apply silent_session_post|]. intros r.
    destruct ((status_code r =? 429) && (attempt + 1 <? tries))%Z.
    + apply silent_bind; [now apply trail_event|]. intros _. apply IH.
    + apply silent_bind.
      * apply silent_try.
        -- unfold raise_for_status. destruct (is_error_status r);
             [apply silent_raise|apply silent_ret].
        -- intros e. apply silent_bind; [now apply trail_event|]. intros _.
           apply silent_raise.
      * intros _. unfold r_json. destruct (json_body r);
          [apply silent_ret|apply silent_raise].
Qed.

Lemma silent_miro_post (url : pystr) (payload : pyval) (tries : Z) :
  silent (_miro_post rt server cfg url payload tries).
Proof. apply silent_post_attempts. Qed.

Lemma silent_print_progress (i n : Z) (suffix : list Fragment) :
  silent (print_progress rt cfg i n suffix).
Proof.
  unfold print_progress. apply silent_bind; [apply silent_lift|].
  intros bar. now apply trail_event.
Qed.

Lemma silent_try_payloads (endpoint : pystr) (payloads : list pyval) :
  forall last, silent (try_payloads rt server cfg endpoint payloads last).
Proof.
  induction payloads as [|p rest IH]; intros last; cbn [try_payloads].
  - destruct last; apply silent_raise.
  - intros w. destruct (silent_miro_post endpoint p default_tries w) as (t1 & Hw1 & Hl1).
    destruct (_miro_post rt server cfg endpoint p default_tries w) as [[v|e] w1];
      simpl in Hw1; subst w1.
    + now exists t1.
    + destruct e; try now exists t1.
      assert (Hs : silent (print [Lit (lit "   Miro error body:");
                                  Val (PStr (firstn 400 (text r)))] ;;
                           try_payloads rt server cfg endpoint rest (Some (HTTPError r)))).
      { apply silent_bind; [now apply trail_event|]. intros _. apply IH. }
      destruct (Hs (t1 ++ w)) as (t2 & Hw2 & Hl2).
      exists (t2 ++ t1). rewrite Hw2, entries_app, Hl1, Hl2, app_assoc.
      split; reflexivity.
Qed.

Lemma trail_group_items (board_id : pyval) (item_ids : list pyval) :
  trail (fun _ l => l = [group_call]) (miro_group_items rt server cfg board_id item_ids).
Proof.
  unfold miro_group_items. apply trail_enter.
  apply silent_bind; [apply silent_lift|]. intros endpoint.
  apply silent_bind; [apply silent_lift|]. intros ids. apply silent_try_payloads.
Qed.

Lemma trail_place_image idx total pid img_url x y :
  trail (fun _ l => l = [image_call]) (place_image rt server cfg idx total pid img_url x y).
Proof.
  unfold place_image. apply trail_try_silent.
  - apply trail_then_silent.
    + unfold miro_create_image. apply trail_enter.
      apply silent_bind; [apply silent_lift|]. intros endpoint. apply silent_miro_post.
    + intros img. apply silent_bind; [apply silent_lift|]. intros iid. apply silent_ret.
  - intros e. apply silent_bind; [apply silent_print_progress|]. intros _. apply silent_ret.
Qed.

Lemma trail_place_overlay idx total pid x y ids :
  trail (fun _ l => l = [rect_call]) (place_overlay rt server cfg idx total pid x y ids).
Proof.
  unfold place_overlay. apply trail_try_silent.
  - apply trail_then_silent.
    + unfold miro_create_shape_rect. apply trail_enter.
      apply silent_bind; [apply silent_lift|]. intros endpoint. apply silent_miro_post.
    + intros rect. apply silent_bind; [apply silent_lift|]. intros rid. apply silent_ret.
  - intros e. apply silent_bind; [apply silent_print_progress|]. intros _. apply silent_ret.
Qed.

(** The label is entered unless the page URL cannot be built. *)
Lemma trail_place_text idx total pid p title x y ids :
  trail (fun r l => l = [text_call] \/ (l = [] /\ exists e, r = Raise e))
        (place_text rt server cfg idx total pid p title x y ids).
Proof.
  unfold place_text.
  eapply trail_bind with (Q1 := fun _ l => l = []); [apply silent_lift| |].
  - intros page l1 ->. simpl.
    eapply trail_weaken; [intros r l H; left; exact H|].
    apply trail_try_silent.
    + apply trail_then_silent.
      * unfold miro_create_text. apply trail_enter.
      apply silent_bind; [apply silent_lift|]. intros endpoint. apply silent_miro_post.
      * intros text. apply silent_bind; [apply silent_lift|]. intros tid. apply silent_ret.
    + intros e. apply silent_bind; [apply silent_print_progress|]. intros _.
      apply silent_ret.
  - intros e l ->. right. split; [reflexivity|now exists e].
Qed.

(** The entries of the selection and creation steps, by result. *)
Definition tile_entries (r : Result (option (pyval * list pyval))) (l : list pystr) : Prop :=
  match r with
  | Ok (Some _) => l = [image_call; rect_call; text_call]
  | Ok None => l = [] \/ l = [image_call]
  | Raise _ => l = [] \/ l = [image_call] \/ l = [image_call; rect_call]
               \/ l = [image_call; rect_call; text_call]
  end.

Lemma trail_place_tile idx total p :
  trail tile_entries (place_tile rt server cfg idx total p).
Proof.
  unfold place_tile.
  eapply trail_bind with (Q1 := fun _ l => l = []);
    [apply silent_lift| |intros e l ->; now left].
  intros pid l1 ->. simpl.
  eapply trail_bind with (Q1 := fun _ l => l = []);
    [apply silent_lift| |intros e l ->; now left].
  intros title l1 ->. simpl.
  eapply trail_bind with (Q1 := fun _ l => l = []);
    [apply silent_lift| |intros e l ->; now left].
  intros img_url l1 ->. simpl.
  destruct (negb (truthy img_url)).
  - eapply trail_bind with (Q1 := fun _ l => l = []);
      [apply silent_print_progress| |intros e l ->; now left].
    intros _ l1 ->. apply trail_ret. now left.
  - eapply trail_bind with (Q1 := fun _ l => l = []);
      [apply silent_lift| |intros e l ->; now left].
    intros [x_center y_center] l1 ->. simpl.
    eapply trail_bind; [apply trail_place_image| |intros e l ->; right; now left].
    intros [created_ids|] l1 ->; [|apply trail_ret; now right].
    eapply trail_bind; [apply trail_place_overlay| |intros e l ->; right; right; now left].
    intros ids2 l1 ->.
    eapply trail_bind; [apply trail_place_text| |].
    + intros ids3 l1 [->|[_ [e He]]]; [|discriminate He].
      apply trail_ret. reflexivity.
    + intros e l [->|[-> _]]; simpl; [right; right; now right|right; right; now left].
Qed.

Lemma trail_group_tile idx total pid created_ids :
  trail (fun _ l => l = [] \/ l = [group_call])
        (group_tile rt server cfg idx total pid created_ids).
Proof.
  unfold group_tile.
  destruct (Z.of_nat (List.length
              (filter (fun i => match i with PNone => false | _ => true end) created_ids))
            >=? 2)%Z; [|apply trail_ret; now left].
  eapply trail_weaken; [intros r l H; right; exact H|].
  apply trail_try_silent.
  - apply trail_then_silent; [apply trail_group_items|]. intros _. apply silent_ret.
  - intros e. apply silent_print_progress.
Qed.

(** A list that starts another one. *)
Definition starts (l L : list pystr) : Prop := exists rest, L = l ++ rest.

(** The entries of a whole turn, by result. *)
Definition photo_entries (r : Result bool) (l : list pystr) : Prop :=
  starts l [image_call; rect_call; text_call; group_call]
  /\ (r = Ok true ->
      l = [image_call; rect_call; text_call]
      \/ l = [image_call; rect_call; text_call; group_call])
  /\ (r = Ok false -> l = [] \/ l = [image_call]).

Lemma trail_process_photo (idx total : Z) (p : pyval) :
  trail photo_entries (process_photo rt server cfg idx total p).
Proof.
  set (Q := photo_entries).
  unfold process_photo. eapply trail_bind; [apply trail_place_tile| |].
  - intros [[pid created_ids]|] l1 Hl1; simpl in Hl1.
    + subst l1.
      eapply trail_bind; [apply trail_group_tile| |].
      * intros [] l1 Hl1. simpl in Hl1.
        eapply trail_bind with (Q1 := fun _ l => l = []); [apply silent_print_progress| |].
        -- intros _ l2 ->.
           eapply trail_bind with (Q1 := fun _ l => l = []); [now apply trail_event| |].
           ++ intros _ l2 ->. apply trail_ret.
              destruct Hl1 as [->| ->]; simpl; unfold Q; repeat split;
                try discriminate; try (now left); try (now right);
                [now exists [group_call]|now exists []].
           ++ intros e l ->. destruct Hl1 as [->| ->]; simpl; unfold Q; repeat split;
                try discriminate; [now exists [group_call]|now exists []].
        -- intros e l ->. destruct Hl1 as [->| ->]; simpl; unfold Q; repeat split;
             try discriminate; [now exists [group_call]|now exists []].
      * intros e l [->| ->]; simpl; unfold Q; repeat split; try discriminate;
          [now exists [group_call]|now exists []].
    + apply trail_ret. rewrite app_nil_r.
      destruct Hl1 as [->| ->]; unfold Q; repeat split; try discriminate;
        try (now left); try (now right);
        [now exists [image_call; rect_call; text_call; group_call]
        |now exists [rect_call; text_call; group_call]].
  - intros e l Hl. simpl in Hl. unfold Q. repeat split; try discriminate.
    destruct Hl as [->|[->|[->| ->]]];
      [now exists [image_call; rect_call; text_call; group_call]
      |now exists [rect_call; text_call; group_call]
      |now exists [text_call; group_call]
      |now exists [group_call]].
Qed.


End CallOrder.

(* ================================================================== *)
(** * Further properties: turns that place nothing, runs that find nothing *)
(* ================================================================== *)

Section Turns.
Variable rt : Runtime.
Variable server : Server.
Variable cfg : Config.

(** A record whose title, if any, is a string or a falsy value: the only
    titles [.strip()] can be called on. *)
Definition title_fits (d : list (pystr * pyval)) : Prop :=
  forall t, dict_lookup d (lit "title") = Some t ->
            truthy t = false \/ exists s, t = PStr s.

Lemma title_fits_read (d : list (pystr * pyval)) :
  title_fits d ->
  exists title,
    (t <~ py_get (PDict d) (lit "title") PNone ;;
     match py_or t (PStr []) with
     | PStr s => Ok (strip rt s)
     | _ => Raise AttributeError
     end) = Ok title.
Proof.
  intros Hfit. simpl. unfold py_or.
  destruct (dict_lookup d (lit "title")) as [t|] eqn:Ht.
  - destruct (Hfit t Ht) as [Hf|[s ->]].
    + rewrite Hf. eexists; reflexivity.
    + destruct (truthy (PStr s)); eexists; reflexivity.
  - eexists; reflexivity.
Qed.

(** The line [print_progress] writes. *)
Definition progress_line (bar : pystr) (idx total : Z) (suffix : list Fragment) : Event :=
  EvWrite ([Lit bar; Lit (lit " ")] ++ suffix
           ++ [Lit (if (idx =? total)%Z then [10%N] else [13%N])]).

(** A title [.strip()] cannot be called on: truthy, and no string. *)
Lemma title_misfit_read (d : list (pystr * pyval)) (t : pyval) :
  dict_lookup d (lit "title") = Some t ->
  truthy t = true ->
  (forall s, t <> PStr s) ->
  (t <~ py_get (PDict d) (lit "title") PNone ;;
   match py_or t (PStr []) with
   | PStr s => Ok (strip rt s)
   | _ => Raise AttributeError
   end) = Raise AttributeError.
Proof.
  intros Ht Htruthy Hstr. simpl. rewrite Ht. unfold py_or. rewrite Htruthy.
  destruct t; try reflexivity. now destruct (Hstr s).
Qed.

(** X12.  Take a record for which the selector has no usable URL (a video, a
    record without any of the seven sizes, or one whose preferred size is
    present but empty) and a progress line that can be drawn.  The title is
    read and stripped before the selector runs (line 231).  When the title
    is absent, falsy or a string, the record is skipped: the turn writes one
    progress line, sends no request, enters no board-client function, pauses
    for nothing and does not count the photo as placed.  When the title is
    anything else (a number, say), the record is not skipped: the turn ends
    with [AttributeError] and leaves the trace as it was. *)
Theorem process_photo_skips (idx total : Z) (d : list (pystr * pyval)) (v : pyval)
        (bar : pystr) (w : World) :
  pick_best_image_url (PDict d) = Ok v ->
  truthy v = false ->
  progress_bar rt idx total (PROGRESS_WIDTH cfg) = Ok bar ->
  (title_fits d ->
   process_photo rt server cfg idx total (PDict d) w
   = (Ok false,
      [ progress_line bar idx total
          [ Lit (lit "skip ");
            Val (match dict_lookup d (lit "id") with Some id => id | None => PNone end);
            Lit (lit " (no usable image URL or video)") ] ] ++ w))
  /\ (forall t,
         dict_lookup d (lit "title") = Some t ->
         truthy t = true ->
         (forall s, t <> PStr s) ->
         process_photo rt server cfg idx total (PDict d) w = (Raise AttributeError, w)).
Proof.
  intros Hpick Hfalsy Hbar. split.
  - intros Hfit.
    destruct (title_fits_read Hfit) as [title Htitle].
    unfold process_photo, place_tile, bind, lift.
    cbv beta. rewrite Htitle, Hpick, Hfalsy.
    unfold print_progress, bind, lift. rewrite Hbar. reflexivity.
  - intros t Ht Htruthy Hstr.
    unfold process_photo, place_tile, bind, lift.
    cbv beta. rewrite (title_misfit_read _ Ht Htruthy Hstr). reflexivity.
Qed.


(** X14.  When step 4 meets identifiers the coercion refuses (see C9), the
    [ValueError] is raised before any request for the group is sent, and the
    handler of step 4, which catches [HTTPError] only, lets it through: the
    turn, and with it the run, ends with that exception. *)
Theorem group_tile_coercion_escapes (idx total : Z) (pid : pyval)
        (created_ids : list pyval) (e : exn) (w : World) :
  no_none created_ids ->
  (2 <= List.length created_ids)%nat ->
  _coerce_ids_to_numbers rt created_ids = Raise e ->
  e = ValueError
  /\ group_tile rt server cfg idx total pid created_ids w
     = (Raise ValueError,
        [ EvEnter (lit "miro_group_items") [env (MIRO_BOARD_ID cfg); PList created_ids] ] ++ w).
Proof.
  intros Hnn Hlen Hc.
  assert (He : e = ValueError).
  { clear Hnn Hlen. revert e Hc.
    induction created_ids as [|id ids IH]; intros e Hc; simpl in Hc; [discriminate|].
    destruct (coerce_id rt id) as [x|e'] eqn:Hx; simpl in Hc.
    - destruct (_coerce_ids_to_numbers rt ids) as [out|e'']; simpl in Hc; [discriminate|].
      injection Hc as <-. now apply IH.
    - injection Hc as <-. destruct id; simpl in Hx; try discriminate.
      destruct (isdigit rt s); [|discriminate].
      unfold int_of_str in Hx.
      destruct (match rev (drop_blanks rt (rev (drop_blanks rt s))) with
                | 43%N :: r => (false, r)
                | 45%N :: r => (true, r)
                | _ => (false, rev (drop_blanks rt (rev (drop_blanks rt s))))
                end) as [neg digits].
      destruct (read_digits rt AtStart 0 0 digits) as [[z n]|]; simpl in Hx.
      + destruct (negb (int_max_str_digits rt =? 0)%N && (int_max_str_digits rt <? n)%N);
          simpl in Hx; [now injection Hx as <-|discriminate].
      + now injection Hx as <-. }
  split; [exact He|]. subst e.
  unfold group_tile. rewrite Hnn.
  replace (Z.of_nat (List.length created_ids) >=? 2)%Z with true
    by (symmetry; apply Z.geb_le; lia).
  unfold try_except_HTTPError, bind, miro_group_items, bind, emit, lift.
  destruct (MIRO_BOARD_ID cfg) as [board|]; cbn [env boards_url fstr rbind];
    rewrite Hc; reflexivity.
Qed.

(** X15.  An album the reader finds empty (its first page lacks the
    container, or pages without records up to the reported total) makes
    [main] print that no photos were found and return: beyond the listing
    requests nothing is sent, so the board is never contacted. *)
Theorem main_no_photos (w w' : World) :
  missing cfg = [] ->
  reads rt server (env (FLICKR_PHOTOSETID cfg)) (env (FLICKR_USER_ID cfg))
        (env (FLICKR_API_KEY cfg)) 1 w [] w' ->
  exists n, forall fuel,
    main rt server cfg (n + fuel) w
    = Some (Ok tt,
            [ EvPrint [Lit (lit "No photos found (album may be private or IDs incorrect).")] ]
            ++ w').
Proof.
  intros Hmiss Hreads.
  destruct (reads_photos_from Hreads) as [n Hn].
  exists n. intros fuel. unfold main, list_of_photos, flickr_photos_in_photoset.
  rewrite Hmiss, Hn. reflexivity.
Qed.

End Turns.

(** A video with every size on offer. *)
Definition video_record : pyval := PDict video_c_o.

(** The same video with a number for a title. *)
Definition numbered_video : list (pystr * pyval) := (lit "title", PInt 5) :: video_c_o.

Lemma process_photo_skips_witness :
  process_photo cpython_latin1 accepting_board example_config 3 7 video_record []
  = (Ok false,
     [ EvWrite [ Lit (lit "[#################-----------------------] 3/7"); Lit (lit " ");
                 Lit (lit "skip "); Val (PStr (lit "531"));
                 Lit (lit " (no usable image URL or video)"); Lit [13%N] ] ])
  /\ process_photo cpython_latin1 accepting_board example_config 3 7 (PDict numbered_video) []
     = (Raise AttributeError, []).
Proof.
  split.
  - apply (proj1 (@process_photo_skips cpython_latin1 accepting_board example_config 3 7
                    video_c_o PNone (lit "[#################-----------------------] 3/7") []
                    eq_refl eq_refl eq_refl)).
    intros t Ht. discriminate Ht.
  - apply (proj2 (@process_photo_skips cpython_latin1 accepting_board example_config 3 7
                    numbered_video PNone (lit "[#################-----------------------] 3/7") []
                    eq_refl eq_refl eq_refl) (PInt 5)).
    + reflexivity.
    + reflexivity.
    + intros s Hs. discriminate Hs.
Defined.


Lemma group_tile_coercion_escapes_witness :
  group_tile cpython_latin1 accepting_board example_config 1 1 (PStr (lit "531"))
    [PStr [178%N]; PStr (lit "x-17")] []
  = (Raise ValueError,
     [ EvEnter (lit "miro_group_items")
               [PStr (lit "board"); PList [PStr [178%N]; PStr (lit "x-17")]] ]).
Proof.
  apply (@group_tile_coercion_escapes cpython_latin1 accepting_board example_config 1 1
           (PStr (lit "531")) [PStr [178%N]; PStr (lit "x-17")] ValueError []).
  - reflexivity.
  - simpl. lia.
  - reflexivity.
Defined.

Lemma main_no_photos_witness :
  exists n, forall fuel,
    main cpython_latin1 no_such_album example_config (n + fuel) []
    = Some (Ok tt,
            [ EvPrint [Lit (lit "No photos found (album may be private or IDs incorrect).")];
              EvRequest (page_request (PStr (lit "7215")) (PStr (lit "12345678@N00"))
                                      (PStr (lit "key")) 1) ]).
Proof.
  apply (@main_no_photos cpython_latin1 no_such_album example_config []
           [ EvRequest (page_request (PStr (lit "7215")) (PStr (lit "12345678@N00"))
                                     (PStr (lit "key")) 1) ]).
  - reflexivity.
  - eapply reads_lacks; [reflexivity|].
    apply lacks_no_photoset. reflexivity.
Defined.

(* ================================================================== *)
(** * Further properties: a whole run *)
(* ================================================================== *)

Section Run.
Variable rt : Runtime.
Variable server : Server.
Variable cfg : Config.

Lemma starts_length (l L : list pystr) : starts l L -> (List.length l <= List.length L)%nat.
Proof. intros [rest ->]. rewrite length_app. lia. Qed.

Lemma trail_photo_loop (photos : list pyval) :
  forall idx total done,
    trail (fun _ l => (List.length l <= 4 * List.length photos)%nat)
          (photo_loop rt server cfg idx total photos done).
Proof.
  induction photos as [|p rest IH]; intros idx total done; simpl photo_loop.
  - apply trail_ret. simpl. lia.
  - eapply trail_bind; [apply trail_process_photo| |].
    + intros placed l1 [Hstarts _]. apply starts_length in Hstarts. simpl in Hstarts.
      eapply trail_weaken; [|apply IH].
      intros r l Hl. cbv beta in *. rewrite length_app. simpl List.length. lia.
    + intros e l [Hstarts _]. apply starts_length in Hstarts. simpl in *. lia.
Qed.

(** X16.  The loop over the photos enters the board-client functions at most
    four times a photo, and leaves on the trace everything that was there
    before it. *)
Theorem photo_loop_calls_bounded (idx total done : Z) (photos : list pyval) (w : World) :
  exists tail,
    snd (photo_loop rt server cfg idx total photos done w) = tail ++ w
    /\ (List.length (entries tail) <= 4 * List.length photos)%nat.
Proof. apply trail_photo_loop. Qed.



End Run.

